(** * Reservoir sampling ([reservoir.py]): a shallow embedding and its properties

    The Python class [Reservoir] keeps a sample of at most [size] items of a
    stream.  It is embedded here as monadic code over an explicit Python
    store: [Reservoir] instances and list objects live in a heap and are
    reached through references, exceptions are results, and NumPy's global
    random generator is a component of the store reached through an
    interface ([NumpyRandom]).  A second semantics ([Ideal]) runs the same
    loop over distributions, for the probability of an item to be in the
    sample.

    The file has two parts: the definitions, then the lemmas and the
    properties of the program. *)

From Stdlib Require Import QArith Qcanon.
From stdpp Require Import numbers gmap strings list.

Local Open Scope Z_scope.

(** ** Python values *)

(** The exception classes the module raises or can meet. *)
Inductive exn :=
  | TypeError
  | ValueError
  | IndexError
  | AttributeError
  | ZeroDivisionError.

Global Instance exn_eq_dec : EqDecision exn.
Proof. solve_decision. Defined.

(** Scalar values: what a caller passes as [size] or [seed], and the items of
    a stream. *)
Inductive pyval :=
  | VNone
  | VBool (b : bool)
  | VInt (n : Z)
  | VFloat (q : Qc)
  | VStr (s : string).

Global Instance pyval_eq_dec : EqDecision pyval.
Proof. solve_decision. Defined.

(** What a caller passes as [gen]: a scalar, or an object that yields a finite
    sequence of items when iterated (a list, a tuple, a [range], a generator
    that terminates). *)
Inductive pyobj :=
  | Val (v : pyval)
  | Seq (items : list pyval).

(** [isinstance(n, int)]: [bool] is a subclass of [int]. *)
Definition isinstance_int (n : pyval) : bool :=
  match n with
  | VInt _ | VBool _ => true
  | _ => false
  end.

(** The integer a value denotes in arithmetic; used only on values that
    passed [isinstance_int]. *)
Definition int_of (n : pyval) : Z :=
  match n with
  | VInt z => z
  | VBool b => if b then 1 else 0
  | _ => 0
  end.

(** [n < 1] for a Python value [n]: numbers compare, the other types raise. *)
Definition lt_1 (n : pyval) : exn + bool :=
  match n with
  | VInt _ | VBool _ => inr (int_of n <? 1)
  | VFloat q => inr (bool_decide (q < 1)%Qc)
  | VNone | VStr _ => inl TypeError
  end.

(** [iter(itrbl)]: the items a finite iterable yields; a string yields its
    characters, the other scalars are not iterable. *)
Fixpoint chars (s : string) : list pyval :=
  match s with
  | EmptyString => []
  | String c s' => VStr (String c EmptyString) :: chars s'
  end.

Definition iter (itrbl : pyobj) : exn + list pyval :=
  match itrbl with
  | Seq items => inr items
  | Val (VStr s) => inr (chars s)
  | Val _ => inl TypeError
  end.

(** ** NumPy's random generator and Python's float division

    [numpy.random] and the float type are not part of the module: they are
    an interface.  [np_seed] may reject its argument (NumPy accepts seeds in
    a bounded range only); [np_choice a] draws from [range(a)]. *)
Class NumpyRandom := {
  float : Type;
  truediv : Z → Z → float;
  float_le : float → float → bool;
  rng : Type;
  np_seed : Z → exn + rng;
  np_uniform : rng → float * rng;
  np_choice : Z → rng → Z * rng;
  np_choice_range : ∀ a g, 0 < a → 0 ≤ (np_choice a g).1 < a
}.

(** ** The store *)

Definition loc := positive.

(** The attributes of a [Reservoir] instance; [_samples] is a reference to a
    list object. *)
Record Reservoir := mkReservoir {
  _size : Z;
  _samples : loc;
  _seen : Z
}.

Record state `{NumpyRandom} := mkState {
  reservoirs : gmap loc Reservoir;
  lists : gmap loc (list pyval);
  np_random : rng
}.

(** ** Computations: store passing with exceptions

    A raised exception keeps the store as it was when it was raised. *)
Section Embedding.
Context `{NR : NumpyRandom}.

Definition py (A : Type) : Type := state → (exn + A) * state.

Definition ret {A} (a : A) : py A := λ s, (inr a, s).

Definition raise {A} (e : exn) : py A := λ s, (inl e, s).

Definition bind {A B} (c : py A) (k : A → py B) : py B :=
  λ s, match c s with
       | (inr a, s') => k a s'
       | (inl e, s') => (inl e, s')
       end.

Definition lift {A} (r : exn + A) : py A :=
  match r with
  | inl e => raise e
  | inr a => ret a
  end.

Definition get : py state := λ s, (inr s, s).
Definition put (s : state) : py unit := λ _, (inr tt, s).

End Embedding.

Global Instance py_ret `{NumpyRandom} : MRet py := @ret _.
Global Instance py_bind `{NumpyRandom} : MBind py := λ A B k c, bind c k.

Section Program.
Context `{NR : NumpyRandom}.

(** *** Objects *)

(** [self.attr] reads and writes go through the instance [self] refers to. *)
Definition load (self : loc) : py Reservoir :=
  s ← get;
  match reservoirs s !! self with
  | Some r => ret r
  | None => raise AttributeError
  end.

Definition store (self : loc) (r : Reservoir) : py unit :=
  s ← get;
  put (mkState _ (<[self := r]> (reservoirs s)) (lists s) (np_random s)).

(** [[]]: a fresh, empty list object. *)
Definition new_list : py loc :=
  s ← get;
  let l := fresh (dom (lists s)) in
  put (mkState _ (reservoirs s) (<[l := []]> (lists s)) (np_random s));;
  ret l.

(** The contents of the list object at [l]. *)
Definition list_read (l : loc) : py (list pyval) :=
  s ← get;
  match lists s !! l with
  | Some xs => ret xs
  | None => raise AttributeError
  end.

Definition list_write (l : loc) (xs : list pyval) : py unit :=
  s ← get;
  put (mkState _ (reservoirs s) (<[l := xs]> (lists s)) (np_random s)).

(** [lst.append(item)] *)
Definition append (l : loc) (item : pyval) : py unit :=
  xs ← list_read l;
  list_write l (xs ++ [item]).

(** [lst[i] = item]: a negative index counts from the end, an index outside
    [-len, len) raises [IndexError]. *)
Definition setitem (l : loc) (i : Z) (item : pyval) : py unit :=
  xs ← list_read l;
  let n := Z.of_nat (length xs) in
  if (0 <=? i) && (i <? n) then list_write l (<[Z.to_nat i := item]> xs)
  else if (- n <=? i) && (i <? 0) then list_write l (<[Z.to_nat (n + i) := item]> xs)
  else raise IndexError.

(** *** The random generator *)

(** [np.random.seed(seed)] *)
Definition np_random_seed (seed : Z) : py unit :=
  g ← lift (np_seed seed);
  s ← get;
  put (mkState _ (reservoirs s) (lists s) g).

(** [np.random.uniform(size=1)] *)
Definition np_random_uniform : py float :=
  s ← get;
  let '(u, g) := np_uniform (np_random s) in
  put (mkState _ (reservoirs s) (lists s) g);;
  ret u.

(** [np.random.choice(a)] for an integer [a]; NumPy rejects [a <= 0]. *)
Definition np_random_choice (a : Z) : py Z :=
  if a <=? 0 then raise ValueError
  else
    s ← get;
    let '(i, g) := np_choice a (np_random s) in
    put (mkState _ (reservoirs s) (lists s) g);;
    ret i.

(** [float(a / b)] on integers *)
Definition div (a b : Z) : py float :=
  if b =? 0 then raise ZeroDivisionError else ret (truediv a b).

(** *** Utilities to check user input *)

Definition _check_int (n : pyval) : py unit :=
  if isinstance_int n then ret tt else raise TypeError.

Definition _check_positive_int (n : pyval) : py unit :=
  b ← lift (lt_1 n);
  if b : bool then raise ValueError else ret tt.

Definition _check_iterable (itrbl : pyobj) : py unit :=
  match iter itrbl with
  | inr _ => ret tt
  | inl _ => raise TypeError
  end.

(** *** The class [Reservoir] *)

(** [Reservoir(size)]: the checks, then a new instance with its attributes;
    the result is the reference to the instance. *)
Definition __init__ (size : pyval) : py loc :=
  _check_int size;;
  _check_positive_int size;;
  samples ← new_list;
  s ← get;
  let self := fresh (dom (reservoirs s)) in
  store self (mkReservoir (int_of size) samples 0);;
  ret self.

(** The property [size] and its setter *)
Definition size (self : loc) : py Z :=
  r ← load self; ret (_size r).

Definition set_size (self : loc) (value : pyval) : py unit :=
  _check_int value;;
  _check_positive_int value;;
  r ← load self;
  store self (mkReservoir (int_of value) (_samples r) (_seen r)).

(** The properties [samples] and [seen]: getters only.  [samples] gives the
    reference held in [_samples], not a copy of the list. *)
Definition samples (self : loc) : py loc :=
  r ← load self; ret (_samples r).

Definition seen (self : loc) : py Z :=
  r ← load self; ret (_seen r).

(** [obj.name = value] for the three properties of the class: a property
    without a setter raises [AttributeError]. *)
Inductive property := Psize | Psamples | Pseen.

Definition setattr (self : loc) (name : property) (value : pyval) : py unit :=
  match name with
  | Psize => set_size self value
  | Psamples | Pseen => raise AttributeError
  end.

(** The body of the loop of [sample], for one [item] of the stream. *)
Definition sample_item (self : loc) (item : pyval) : py unit :=
  r ← load self;
  store self (mkReservoir (_size r) (_samples r) (_seen r + 1));;
  n ← seen self;
  c ← size self;
  if n <=? c then
    l ← samples self;
    append l item
  else
    c ← size self;
    n ← seen self;
    p ← div c n;
    u ← np_random_uniform;
    if float_le u p then
      c ← size self;
      swap_index ← np_random_choice c;
      r ← load self;
      setitem (_samples r) swap_index item
    else ret tt.

(** [for item in gen: ...] over the items [gen] yields *)
Fixpoint for_each (items : list pyval) (body : pyval → py unit) : py unit :=
  match items with
  | [] => ret tt
  | item :: rest => body item;; for_each rest body
  end.

Definition sample (self : loc) (gen : pyobj) (seed : pyval) : py unit :=
  _check_iterable gen;;
  (match seed with
   | VNone => ret tt
   | _ => _check_int seed;; np_random_seed (int_of seed)
   end);;
  items ← lift (iter gen);
  for_each items (sample_item self).

Definition reset (self : loc) : py unit :=
  r ← load self;
  store self (mkReservoir (_size r) (_samples r) 0);;
  l ← new_list;
  r ← load self;
  store self (mkReservoir (_size r) l (_seen r)).

End Program.

(** ** A model generator

    A linear congruential generator as an instance of the interface, with
    exact rationals for floats: it serves to run the program on concrete
    inputs. *)
Module LCG.

Definition next (g : Z) : Z := (1103515245 * g + 12345) `mod` 2147483648.

Definition seed (z : Z) : exn + Z :=
  if (0 <=? z) && (z <? 4294967296) then inr (z `mod` 2147483648) else inl ValueError.

Definition uniform (g : Z) : Qc * Z :=
  (Q2Qc (Qmake (next g) 2147483648), next g).

Definition choice (a : Z) (g : Z) : Z * Z := (next g `mod` a, next g).

Definition quotient (a b : Z) : Qc := (Qc_of_Z a / Qc_of_Z b)%Qc.

Definition le (u p : Qc) : bool := bool_decide (u ≤ p)%Qc.

Definition numpy : NumpyRandom := {|
  float := Qc;
  truediv := quotient;
  float_le := le;
  rng := Z;
  np_seed := seed;
  np_uniform := uniform;
  np_choice := choice;
  np_choice_range := λ a g, Z.mod_pos_bound (next g) a
|}.

(** A store with no object yet, the generator in state [g]. *)
Definition boot (g : Z) : @state numpy := mkState numpy ∅ ∅ g.

End LCG.

(** ** Notions used to state the properties *)
Section Notions.
Context `{NR : NumpyRandom}.

(** [self._seen += 1] on the attributes *)
Definition bump (r : Reservoir) : Reservoir :=
  mkReservoir (_size r) (_samples r) (_seen r + 1).

(** The store after one item: the instance at [self] and its generator
    replaced. *)
Definition counted (s : state) (self : loc) (r : Reservoir) (g : rng) : state :=
  mkState _ (<[self := bump r]> (reservoirs s)) (lists s) g.

(** The same with the list object of the instance replaced as well. *)
Definition stored (s : state) (self : loc) (r : Reservoir) (xs : list pyval)
    (g : rng) : state :=
  mkState _ (<[self := bump r]> (reservoirs s)) (<[_samples r := xs]> (lists s)) g.

(** [holds self s c n]: the instance at [self] has size [c], has seen [n]
    items, and its list object has [min n c] items. *)
Definition holds (self : loc) (s : state) (c n : Z) : Prop :=
  ∃ l xs, reservoirs s !! self = Some (mkReservoir c l n)
          ∧ lists s !! l = Some xs
          ∧ Z.of_nat (length xs) = Z.min n c.

(** A computation that leaves the instances alone *)
Definition keeps {A} (c : py A) : Prop :=
  ∀ s res s', c s = (res, s') → reservoirs s' = reservoirs s.

(** [k] more items seen *)
Definition advance (r : Reservoir) (k : Z) : Reservoir :=
  mkReservoir (_size r) (_samples r) (_seen r + k).

(** The store with the generator in state [g] *)
Definition reseeded (s : state) (g : rng) : state :=
  mkState _ (reservoirs s) (lists s) g.

(** What the seed argument does before the loop starts: nothing for [None],
    an exception for a value that is no integer or that NumPy rejects, the
    generator reseeded otherwise. *)
Definition seeding (seed : pyval) (s : state) : exn + state :=
  match seed with
  | VNone => inr s
  | _ =>
      if isinstance_int seed then
        match np_seed (int_of seed) with
        | inr g => inr (reseeded s g)
        | inl e => inl e
        end
      else inl TypeError
  end.

(** The store after [Reservoir(size)] *)
Definition constructed (size : pyval) (s : state) : loc * state :=
  let l := fresh (dom (lists s)) in
  let self := fresh (dom (reservoirs s)) in
  (self, mkState _ (<[self := mkReservoir (int_of size) l 0]> (reservoirs s))
                   (<[l := []]> (lists s)) (np_random s)).

(** The store a computation leaves, whether it returns or raises. *)
Definition exec {A} (c : py A) (s : state) : state := (c s).2.

(** A caller that makes the calls [sample(gen, seed)] one after the other and
    goes on after a call that raised. *)
Fixpoint sample_calls (self : loc) (calls : list (pyobj * pyval)) (s : state) : state :=
  match calls with
  | [] => s
  | (gen, seed) :: rest => sample_calls self rest (exec (sample self gen seed) s)
  end.


(** The number of items a stream yields *)
Definition stream_length (gen : pyobj) : Z :=
  match iter gen with
  | inr items => Z.of_nat (length items)
  | inl _ => 0
  end.


(** A seed [sample] takes: none, or an integer NumPy accepts. *)
Definition accepted (seed : pyval) : Prop :=
  seed = VNone ∨ (isinstance_int seed = true ∧ ∃ g, np_seed (int_of seed) = inr g).

(** A call that passes the checks of [sample] *)
Definition passes (call : pyobj * pyval) : Prop :=
  (∃ items, iter call.1 = inr items) ∧ accepted call.2.

(** A reservoir right after construction or right after [reset] *)
Definition fresh_start (self : loc) (s1 : state) : Prop :=
  (∃ size s, __init__ size s = (inr self, s1))
  ∨ (∃ s r, reservoirs s !! self = Some r ∧ 1 ≤ _size r
            ∧ s1 = exec (reset self) s).

(** The program of the scenario with a raised size: a reservoir of size 1
    sees four items, then its size is set to 3. *)
Definition raised_size : py loc :=
  r ← __init__ (VInt 1);
  sample r (Seq [VInt 10; VInt 11; VInt 12; VInt 13]) (VInt 0);;
  set_size r (VInt 3);;
  mret r.

(** The program of the scenario with a shared list: the caller reads
    [samples] and appends to what it got. *)
Definition shared_list : py (list pyval * Z) :=
  r ← __init__ (VInt 3);
  sample r (Seq [VInt 1; VInt 2]) VNone;;
  l ← samples r;
  append l (VInt 99);;
  l' ← samples r;
  xs ← list_read l';
  n ← seen r;
  mret (xs, n).

(** What a caller sees of the reservoir after a computation: the exception
    it raised, or the count and the contents of the sample. *)
Definition observe {A} (self : loc) (result : (exn + A) * state)
    : exn + Z * list pyval :=
  match result.1 with
  | inl e => inl e
  | inr _ =>
      match reservoirs result.2 !! self with
      | Some r =>
          match lists result.2 !! _samples r with
          | Some xs => inr (_seen r, xs)
          | None => inl AttributeError
          end
      | None => inl AttributeError
      end
  end.

End Notions.

(** ** The loop over distributions

    The probability of an item to be in the sample is a property of the law
    of the draws, which the module does not fix.  [Ideal] runs the loop of
    [sample] on the count and the contents of the sample, with finite
    distributions over exact rationals in place of the generator. *)
Module Ideal.

(** A finite distribution: outcomes with their weights. *)
Definition dist (A : Type) : Type := list (Qc * A).

Definition dret {A} (a : A) : dist A := [(1%Qc, a)].

Definition scale {A} (w : Qc) (d : dist A) : dist A :=
  map (λ vb, ((w * vb.1)%Qc, vb.2)) d.

Definition dbind {A B} (d : dist A) (k : A → dist B) : dist B :=
  flat_map (λ wa, scale wa.1 (k wa.2)) d.





(** Modelled from the spec: the law of [np.random.uniform(size=1) <= p],
    of NumPy and not of this module.  The spec has [u] uniform on [0, 1), so
    that [u <= p] has probability [p] for [p] in [0, 1]; the rounding of [p]
    and of [u] to floats is left out. *)
Definition bernoulli (p : Qc) : dist bool := [(p, true); ((1 - p)%Qc, false)].

(** Modelled from the spec: the law of [np.random.choice(a)], of NumPy and
    not of this module: uniform on [0, a). *)
Definition uniform_below (a : Z) : dist Z :=
  map (λ i, ((1 / Qc_of_Z a)%Qc, Z.of_nat i)) (seq 0 (Z.to_nat a)).

(** The image of a distribution *)
Definition dmap {A B} (f : A → B) (d : dist A) : dist B :=
  map (λ wa, (wa.1, f wa.2)) d.

(** Sums over slot indices *)
Definition sumQ (f : nat → Qc) (l : list nat) : Qc :=
  foldr (λ i acc, (f i + acc)%Qc) 0%Qc l.

(** What is left after an item: an exception, or the count and the contents
    of the sample.  The loop never looks into the items: [T] is their type. *)
Definition outcome (T : Type) : Type := exn + Z * list T.

(** The items of a stream with their positions: two occurrences of a value
    are two items. *)
Definition labelled {T} (items : list T) : list (nat * T) := imap pair items.

(** An outcome on items with positions, the positions forgotten *)
Definition forget {T} (o : outcome (nat * T)) : outcome T :=
  match o with
  | inl e => inl e
  | inr st => inr (st.1, st.2.*2)
  end.

Section Items.
Context {T : Type} `{EqDecision T}.

(** The body of the loop of [sample] for a reservoir of size [c]: [st] is the
    count and the sample before the item. *)
Definition sample_item (c : Z) (item : T) (st : Z * list T) : dist (outcome T) :=
  let n := st.1 + 1 in
  if n <=? c then dret (inr (n, st.2 ++ [item]))
  else
    dbind (bernoulli (Qc_of_Z c / Qc_of_Z n)%Qc) (λ keep,
      if keep : bool then
        dbind (uniform_below c) (λ swap_index,
          if swap_index <? Z.of_nat (length st.2)
          then dret (inr (n, <[Z.to_nat swap_index := item]> st.2))
          else dret (inl IndexError))
      else dret (inr (n, st.2))).

(** [for item in gen: ...]; an exception ends the loop. *)
Fixpoint for_each (c : Z) (items : list T) (o : outcome T) : dist (outcome T) :=
  match items with
  | [] => dret o
  | item :: rest =>
      match o with
      | inl e => dret (inl e)
      | inr st => dbind (sample_item c item st) (for_each c rest)
      end
  end.


Section Weights.
Local Open Scope Qc_scope.



End Weights.

End Items.

End Ideal.

(** ** The reservoir as the loop of [sample] sees it *)
Section Views.
Context `{NR : NumpyRandom}.

(** What a call of [sample] reads and writes: the size, the count, the
    contents of the list behind [_samples], and the generator. *)
Record view := mkView {
  v_size : Z;
  v_seen : Z;
  v_items : list pyval;
  v_rng : rng
}.

Definition view_of (self : loc) (s : state) : option view :=
  match reservoirs s !! self with
  | Some r =>
      match lists s !! _samples r with
      | Some xs => Some (mkView (_size r) (_seen r) xs (np_random s))
      | None => None
      end
  | None => None
  end.

(** A view of a reservoir the class can have made: its size passed
    [_check_positive_int] and its count started at 0. *)
Definition valid (v : view) : Prop := 1 ≤ v_size v ∧ 0 ≤ v_seen v.

(** The body of the loop of [sample] on a valid view *)
Definition item_step (item : pyval) (v : view) : (exn + unit) * view :=
  let n := v_seen v + 1 in
  if n <=? v_size v then
    (inr tt, mkView (v_size v) n (v_items v ++ [item]) (v_rng v))
  else
    let '(u, g1) := np_uniform (v_rng v) in
    if float_le u (truediv (v_size v) n) then
      let '(i, g2) := np_choice (v_size v) g1 in
      if i <? Z.of_nat (length (v_items v))
      then (inr tt, mkView (v_size v) n (<[Z.to_nat i := item]> (v_items v)) g2)
      else (inl IndexError, mkView (v_size v) n (v_items v) g2)
    else (inr tt, mkView (v_size v) n (v_items v) g1).

(** The loop of [sample] on a valid view; an exception ends it. *)
Fixpoint loop_steps (items : list pyval) (v : view) : (exn + unit) * view :=
  match items with
  | [] => (inr tt, v)
  | item :: rest =>
      match item_step item v with
      | (inr _, v') => loop_steps rest v'
      | (inl e, v') => (inl e, v')
      end
  end.

(** The view the loop starts from once the seed is set *)
Definition reseeded_view (v : view) (g : rng) : view :=
  mkView (v_size v) (v_seen v) (v_items v) g.

(** What the seed argument of [sample] does, on a view *)
Definition seeding_view (seed : pyval) (v : view) : exn + view :=
  match seed with
  | VNone => inr v
  | _ =>
      if isinstance_int seed then
        match np_seed (int_of seed) with
        | inr g => inr (reseeded_view v g)
        | inl e => inl e
        end
      else inl TypeError
  end.

(** A call of [sample] on a valid view: the checks, the seed, the loop. *)
Definition sample_on_view (gen : pyobj) (seed : pyval) (v : view)
    : (exn + unit) * view :=
  match iter gen with
  | inl _ => (inl TypeError, v)
  | inr items =>
      match seeding_view seed v with
      | inl e => (inl e, v)
      | inr v0 => loop_steps items v0
      end
  end.

(** Two views with the same size, count and items; the generators may
    differ. *)
Definition alike (v v' : view) : Prop :=
  v_size v = v_size v' ∧ v_seen v = v_seen v' ∧ v_items v = v_items v'.

(** A reservoir in a state the methods of the class keep: its size is at
    least 1 and its sample has no more items than it has seen. *)
Definition sound (self : loc) (s : state) : Prop :=
  ∃ v, view_of self s = Some v
       ∧ 1 ≤ v_size v
       ∧ Z.of_nat (length (v_items v)) ≤ v_seen v.

(** A list object with contents [xs] that is not the one the reservoir at
    [self] samples into. *)
Definition foreign (self : loc) (s : state) (l : loc) (xs : list pyval) : Prop :=
  lists s !! l = Some xs ∧ ∀ r, reservoirs s !! self = Some r → l ≠ _samples r.

(** [s'] is [s] but for the instance at [self], which keeps its list
    reference, for the contents of that list, and for the generator. *)
Definition same_elsewhere (self : loc) (s s' : state) : Prop :=
  ∃ r r', reservoirs s !! self = Some r
          ∧ reservoirs s' !! self = Some r'
          ∧ _samples r' = _samples r
          ∧ (∀ other, other ≠ self → reservoirs s' !! other = reservoirs s !! other)
          ∧ (∀ l, l ≠ _samples r → lists s' !! l = lists s !! l).

(** The calls a user of the class makes on a reservoir *)
Inductive call :=
  | CallSample (gen : pyobj) (seed : pyval)
  | CallSetSize (value : pyval)
  | CallReset.

Definition do_call (self : loc) (c : call) : py unit :=
  match c with
  | CallSample gen seed => sample self gen seed
  | CallSetSize value => set_size self value
  | CallReset => reset self
  end.

(** A user that makes the calls one after the other and goes on after a call
    that raised. *)
Fixpoint use (self : loc) (calls : list call) (s : state) : state :=
  match calls with
  | [] => s
  | c :: rest => use self rest (exec (do_call self c) s)
  end.

End Views.

(** * Lemmas and properties *)

(** ** Running the loop body *)
Section Steps.
Context `{NR : NumpyRandom}.

(** *** Equations of the primitives *)

Lemma bind_ok {A B} (c : py A) (k : A → py B) s a s' :
  c s = (inr a, s') → (c ≫= k) s = k a s'.
Proof. intros H. unfold mbind, py_bind, bind. by rewrite H. Qed.

Lemma bind_exn {A B} (c : py A) (k : A → py B) s e s' :
  c s = (inl e, s') → (c ≫= k) s = (inl e, s').
Proof. intros H. unfold mbind, py_bind, bind. by rewrite H. Qed.

Lemma load_ok self s r :
  reservoirs s !! self = Some r → load self s = (inr r, s).
Proof. intros H. unfold load. erewrite bind_ok by reflexivity. by rewrite H. Qed.

Lemma store_ok self r s :
  store self r s
  = (inr tt, mkState _ (<[self := r]> (reservoirs s)) (lists s) (np_random s)).
Proof. reflexivity. Qed.

Lemma size_ok self s r :
  reservoirs s !! self = Some r → size self s = (inr (_size r), s).
Proof. intros H. unfold size. by erewrite bind_ok by by apply load_ok. Qed.

Lemma seen_ok self s r :
  reservoirs s !! self = Some r → seen self s = (inr (_seen r), s).
Proof. intros H. unfold seen. by erewrite bind_ok by by apply load_ok. Qed.

Lemma samples_ok self s r :
  reservoirs s !! self = Some r → samples self s = (inr (_samples r), s).
Proof. intros H. unfold samples. by erewrite bind_ok by by apply load_ok. Qed.

Lemma list_read_ok l s xs :
  lists s !! l = Some xs → list_read l s = (inr xs, s).
Proof. intros H. unfold list_read. erewrite bind_ok by reflexivity. by rewrite H. Qed.

Lemma list_write_ok l xs s :
  list_write l xs s
  = (inr tt, mkState _ (reservoirs s) (<[l := xs]> (lists s)) (np_random s)).
Proof. reflexivity. Qed.

Lemma new_list_ok s :
  new_list s
  = (inr (fresh (dom (lists s))),
     mkState _ (reservoirs s) (<[fresh (dom (lists s)) := []]> (lists s)) (np_random s)).
Proof. reflexivity. Qed.

Lemma append_ok l item s xs :
  lists s !! l = Some xs →
  append l item s
  = (inr tt, mkState _ (reservoirs s) (<[l := xs ++ [item]]> (lists s)) (np_random s)).
Proof. intros H. unfold append. by erewrite bind_ok by by apply list_read_ok. Qed.

Lemma setitem_ok l i item s xs :
  lists s !! l = Some xs →
  0 ≤ i < Z.of_nat (length xs) →
  setitem l i item s
  = (inr tt, mkState _ (reservoirs s) (<[l := <[Z.to_nat i := item]> xs]> (lists s))
                     (np_random s)).
Proof.
  intros H Hi. unfold setitem. erewrite bind_ok by by apply list_read_ok.
  destruct (Z.leb_spec 0 i); [|lia].
  destruct (Z.ltb_spec i (Z.of_nat (length xs))); [|lia].
  reflexivity.
Qed.

Lemma setitem_out_of_range l i item s xs :
  lists s !! l = Some xs →
  Z.of_nat (length xs) ≤ i →
  setitem l i item s = (inl IndexError, s).
Proof.
  intros H Hi. unfold setitem. erewrite bind_ok by by apply list_read_ok.
  destruct (Z.ltb_spec i (Z.of_nat (length xs))); [lia|].
  destruct (Z.ltb_spec i 0); [lia|].
  by rewrite !andb_false_r.
Qed.

Lemma div_ok a b s : b ≠ 0 → div a b s = (inr (truediv a b), s).
Proof. intros H. unfold div. by destruct (Z.eqb_spec b 0). Qed.

Lemma np_random_uniform_ok s :
  np_random_uniform s
  = (inr (np_uniform (np_random s)).1,
     mkState _ (reservoirs s) (lists s) (np_uniform (np_random s)).2).
Proof.
  unfold np_random_uniform. erewrite bind_ok by reflexivity.
  by destruct (np_uniform (np_random s)).
Qed.

Lemma np_random_choice_ok a s :
  0 < a →
  np_random_choice a s
  = (inr (np_choice a (np_random s)).1,
     mkState _ (reservoirs s) (lists s) (np_choice a (np_random s)).2).
Proof.
  intros H. unfold np_random_choice. destruct (Z.leb_spec a 0); [lia|].
  erewrite bind_ok by reflexivity.
  by destruct (np_choice a (np_random s)).
Qed.

(** *** One item of the stream *)

Lemma sample_item_fill self item s r xs :
  reservoirs s !! self = Some r →
  lists s !! _samples r = Some xs →
  _seen r + 1 ≤ _size r →
  sample_item self item s
  = (inr tt, stored s self r (xs ++ [item]) (np_random s)).
Proof.
  intros Hr Hxs Hle. unfold sample_item.
  erewrite bind_ok by by apply load_ok.
  erewrite bind_ok by apply store_ok.
  set (s1 := mkState _ _ _ _).
  assert (H1 : reservoirs s1 !! self = Some (bump r)) by apply lookup_insert_eq.
  erewrite bind_ok by by apply seen_ok.
  erewrite bind_ok by by apply size_ok.
  simpl. destruct (Z.leb_spec (_seen r + 1) (_size r)); [|lia].
  erewrite bind_ok by by apply samples_ok.
  by erewrite append_ok.
Qed.

(** In the replacement phase the result is decided by the two draws: [u]
    from [np.random.uniform] and, when [u <= p], [i] from
    [np.random.choice]. *)
Lemma sample_item_replace self item s r xs :
  reservoirs s !! self = Some r →
  lists s !! _samples r = Some xs →
  0 < _size r < _seen r + 1 →
  sample_item self item s
  = let '(u, g1) := np_uniform (np_random s) in
    if float_le u (truediv (_size r) (_seen r + 1)) then
      let '(i, g2) := np_choice (_size r) g1 in
      if i <? Z.of_nat (length xs)
      then (inr tt, stored s self r (<[Z.to_nat i := item]> xs) g2)
      else (inl IndexError, counted s self r g2)
    else (inr tt, counted s self r g1).
Proof.
  intros Hr Hxs Hlt. unfold sample_item.
  erewrite bind_ok by by apply load_ok.
  erewrite bind_ok by apply store_ok.
  set (s1 := mkState _ _ _ _).
  assert (H1 : reservoirs s1 !! self = Some (bump r)) by apply lookup_insert_eq.
  erewrite bind_ok by by apply seen_ok.
  erewrite bind_ok by by apply size_ok.
  simpl. destruct (Z.leb_spec (_seen r + 1) (_size r)); [lia|].
  erewrite bind_ok by by apply size_ok.
  erewrite bind_ok by by apply seen_ok.
  erewrite bind_ok by (apply div_ok; simpl; lia).
  erewrite bind_ok by apply np_random_uniform_ok.
  simpl. destruct (np_uniform (np_random s)) as [u g1]. simpl.
  destruct (float_le u _); [|reflexivity].
  set (s2 := mkState _ _ _ _).
  assert (H2 : reservoirs s2 !! self = Some (bump r)) by apply lookup_insert_eq.
  erewrite bind_ok by by apply size_ok.
  erewrite bind_ok by (apply np_random_choice_ok; simpl; lia).
  simpl. pose proof (np_choice_range (_size r) g1 ltac:(lia)) as Hi.
  destruct (np_choice (_size r) g1) as [i g2]. simpl in *.
  set (s3 := mkState _ _ _ _).
  assert (H3 : reservoirs s3 !! self = Some (bump r)) by apply lookup_insert_eq.
  erewrite bind_ok by by apply load_ok.
  destruct (Z.ltb_spec i (Z.of_nat (length xs))).
  - by erewrite setitem_ok by (done || lia).
  - by erewrite setitem_out_of_range.
Qed.

(** *** The loop *)

Lemma sample_item_holds self item s c n :
  1 ≤ c → 0 ≤ n → holds self s c n →
  ∃ s', sample_item self item s = (inr tt, s') ∧ holds self s' c (n + 1).
Proof.
  intros Hc Hn (l & xs & Hr & Hxs & Hlen).
  destruct (Z.le_gt_cases (n + 1) c) as [Hfill|Hfull].
  - rewrite (sample_item_fill _ _ _ _ _ Hr Hxs) by done.
    eexists; split; [done|]. exists l, (xs ++ [item]). simpl.
    rewrite !lookup_insert_eq, length_app. simpl. split_and!; [done..|lia].
  - rewrite (sample_item_replace _ _ _ _ _ Hr Hxs) by (simpl; lia).
    destruct (np_uniform (np_random s)) as [u g1].
    destruct (float_le u _).
    + pose proof (np_choice_range c g1 ltac:(lia)) as Hi. simpl.
      destruct (np_choice c g1) as [i g2]. simpl in Hi.
      destruct (Z.ltb_spec i (Z.of_nat (length xs))); [|lia].
      eexists; split; [done|]. exists l, (<[Z.to_nat i := item]> xs). simpl.
      rewrite !lookup_insert_eq, length_insert. split_and!; [done..|lia].
    + eexists; split; [done|]. exists l, xs. simpl.
      rewrite lookup_insert_eq. split_and!; [done..|lia].
Qed.

(** The stores inside a call are those after a call on a shorter stream. *)
Lemma for_each_app items more (body : pyval → py unit) s :
  for_each (items ++ more) body s
  = (for_each items body;; for_each more body) s.
Proof.
  revert s. induction items as [|item rest IH]; intros s; [done|].
  change (for_each ((item :: rest) ++ more) body)
    with (body item;; for_each (rest ++ more) body).
  change (for_each (item :: rest) body) with (body item;; for_each rest body).
  destruct (body item s) as [[e|[]] s1] eqn:E.
  - erewrite bind_exn by done. symmetry.
    erewrite bind_exn; [done|]. by erewrite bind_exn.
  - erewrite bind_ok by done. rewrite IH.
    destruct (for_each rest body s1) as [[e|[]] s2] eqn:E'.
    + erewrite bind_exn by done. symmetry.
      erewrite bind_exn; [done|]. by erewrite bind_ok.
    + erewrite bind_ok by done. symmetry.
      erewrite bind_ok; [done|]. by erewrite bind_ok.
Qed.

Lemma for_each_holds self items s c n :
  1 ≤ c → 0 ≤ n → holds self s c n →
  ∃ s', for_each items (sample_item self) s = (inr tt, s')
        ∧ holds self s' c (n + Z.of_nat (length items)).
Proof.
  intros Hc. revert s n. induction items as [|item rest IH]; intros s n Hn H.
  - exists s. split; [done|]. simpl. by rewrite Z.add_0_r.
  - destruct (sample_item_holds self item s c n Hc Hn H) as (s1 & Hrun & H1).
    destruct (IH s1 (n + 1) ltac:(lia) H1) as (s2 & Hrest & H2).
    exists s2. split.
    + simpl. by erewrite bind_ok.
    + replace (n + Z.of_nat (length (item :: rest)))
        with (n + 1 + Z.of_nat (length rest)) by (simpl; lia). done.
Qed.

(** *** Computations that leave the instances alone *)

Lemma keeps_ret {A} (a : A) : keeps (mret a).
Proof. intros s res s' [= _ <-]. done. Qed.

Lemma keeps_raise {A} e : keeps (raise (A := A) e).
Proof. intros s res s' [= _ <-]. done. Qed.

Lemma keeps_bind {A B} (c : py A) (k : A → py B) :
  keeps c → (∀ a, keeps (k a)) → keeps (c ≫= k).
Proof.
  intros Hc Hk s res s'. unfold mbind, py_bind, bind.
  destruct (c s) as [[e|a] s1] eqn:E.
  - intros [= _ <-]. eauto.
  - intros H. rewrite (Hk _ _ _ _ H). eauto.
Qed.

Lemma keeps_get : keeps get.
Proof. intros s res s' [= _ <-]. done. Qed.

Lemma keeps_load self : keeps (load self).
Proof.
  apply keeps_bind; [apply keeps_get|]. intros s.
  destruct (_ !! _); [apply keeps_ret|apply keeps_raise].
Qed.

Lemma keeps_list_read l : keeps (list_read l).
Proof.
  apply keeps_bind; [apply keeps_get|]. intros s.
  destruct (_ !! _); [apply keeps_ret|apply keeps_raise].
Qed.

Lemma keeps_list_write l xs : keeps (list_write l xs).
Proof. intros s res s' [= _ <-]. done. Qed.

Lemma keeps_append l item : keeps (append l item).
Proof.
  apply keeps_bind; [apply keeps_list_read|]. intros. apply keeps_list_write.
Qed.

Lemma keeps_setitem l i item : keeps (setitem l i item).
Proof.
  apply keeps_bind; [apply keeps_list_read|]. intros xs. simpl.
  repeat case_match; (apply keeps_list_write || apply keeps_raise).
Qed.

Lemma keeps_div a b : keeps (div a b).
Proof. unfold div. case_match; [apply keeps_raise|apply keeps_ret]. Qed.

Lemma keeps_np_random_uniform : keeps np_random_uniform.
Proof.
  intros s res s'. unfold np_random_uniform, mbind, py_bind, bind, get, put. simpl.
  destruct (np_uniform _). intros [= _ <-]. done.
Qed.

Lemma keeps_np_random_choice a : keeps (np_random_choice a).
Proof.
  unfold np_random_choice. case_match; [apply keeps_raise|].
  intros s res s'. unfold mbind, py_bind, bind, get, put. simpl.
  destruct (np_choice _ _). intros [= _ <-]. done.
Qed.

Lemma keeps_np_random_seed z : keeps (np_random_seed z).
Proof.
  intros s res s'.
  unfold np_random_seed, mbind, py_bind, bind, lift, get, put, raise, ret.
  destruct (np_seed z); simpl; intros [= _ <-]; done.
Qed.

Lemma keeps_getters self :
  keeps (size self) ∧ keeps (seen self) ∧ keeps (samples self).
Proof.
  split_and!; (apply keeps_bind; [apply keeps_load|intros; apply keeps_ret]).
Qed.

(** Whatever the store, one item counts once: the loop body leaves every
    other instance alone and adds one to [_seen], also when it raises. *)
Lemma sample_item_counts self item s r res s' :
  reservoirs s !! self = Some r →
  sample_item self item s = (res, s') →
  reservoirs s' = <[self := bump r]> (reservoirs s).
Proof.
  intros Hr. unfold sample_item.
  erewrite bind_ok by by apply load_ok.
  erewrite bind_ok by apply store_ok.
  destruct (keeps_getters self) as (Hsize & Hseen & Hsamples).
  match goal with |- ?c _ = _ → _ => assert (K : keeps c) end.
  { repeat first
      [ assumption
      | apply keeps_ret | apply keeps_raise | apply keeps_load
      | apply keeps_append | apply keeps_setitem | apply keeps_div
      | apply keeps_np_random_uniform | apply keeps_np_random_choice
      | apply keeps_bind; [|intros]
      | case_match ]. }
  intros H. exact (K _ _ _ H).
Qed.


(** *** A call of [sample] *)

Lemma sample_unfold self gen seed s :
  sample self gen seed s
  = match iter gen with
    | inl _ => (inl TypeError, s)
    | inr items =>
        match seeding seed s with
        | inl e => (inl e, s)
        | inr s0 => for_each items (sample_item self) s0
        end
    end.
Proof.
  unfold sample, _check_iterable.
  destruct (iter gen) as [e|items]; [by erewrite bind_exn|].
  erewrite bind_ok by reflexivity.
  assert (Hseed : ∀ k : unit → py unit,
    ((match seed with
      | VNone => mret tt
      | _ => _check_int seed;; np_random_seed (int_of seed)
      end) ≫= k) s
    = match seeding seed s with
      | inl e => (inl e, s)
      | inr s0 => k tt s0
      end).
  { intros k. destruct seed; try reflexivity;
      unfold seeding, _check_int; simpl;
      try (by erewrite bind_exn by by erewrite bind_exn).
    all: unfold np_random_seed, mbind, py_bind, bind, lift, mret, py_ret, ret, raise;
      simpl; by destruct (np_seed _). }
  rewrite Hseed. destruct (seeding seed s); [done|].
  by erewrite bind_ok by reflexivity.
Qed.

Lemma seeding_reservoirs seed s s0 :
  seeding seed s = inr s0 → reservoirs s0 = reservoirs s ∧ lists s0 = lists s.
Proof.
  unfold seeding. destruct seed; simpl; intros H; simplify_eq; try done;
    by destruct (np_seed _); simplify_eq.
Qed.


Lemma holds_seeding self seed s s0 c n :
  seeding seed s = inr s0 → holds self s c n → holds self s0 c n.
Proof.
  intros [Hr Hl]%seeding_reservoirs (l & xs & ? & ? & ?).
  exists l, xs. by rewrite Hr, Hl.
Qed.

Lemma sample_holds self gen seed s c n items s0 :
  1 ≤ c → 0 ≤ n → holds self s c n →
  iter gen = inr items → seeding seed s = inr s0 →
  ∃ s', sample self gen seed s = (inr tt, s')
        ∧ holds self s' c (n + Z.of_nat (length items)).
Proof.
  intros Hc Hn H Hit Hs. rewrite sample_unfold, Hit, Hs.
  eapply for_each_holds; eauto using holds_seeding.
Qed.

(** *** Construction, the setter of [size], [reset] *)

Lemma check_type_error (n : pyval) s :
  isinstance_int n = false → _check_int n s = (inl TypeError, s).
Proof. intros H. unfold _check_int. by rewrite H. Qed.

Lemma check_int_ok (n : pyval) s :
  isinstance_int n = true → _check_int n s = (inr tt, s).
Proof. intros H. unfold _check_int. by rewrite H. Qed.

Lemma lt_1_int (n : pyval) :
  isinstance_int n = true → lt_1 n = inr (int_of n <? 1).
Proof. by destruct n. Qed.

Lemma check_value_error (n : pyval) s :
  isinstance_int n = true → int_of n < 1 →
  _check_positive_int n s = (inl ValueError, s).
Proof.
  intros H Hlt. unfold _check_positive_int.
  rewrite lt_1_int by done. erewrite bind_ok by reflexivity.
  by destruct (Z.ltb_spec (int_of n) 1); [|lia].
Qed.

Lemma check_positive_ok (n : pyval) s :
  isinstance_int n = true → 1 ≤ int_of n →
  _check_positive_int n s = (inr tt, s).
Proof.
  intros H Hlt. unfold _check_positive_int.
  rewrite lt_1_int by done. erewrite bind_ok by reflexivity.
  by destruct (Z.ltb_spec (int_of n) 1); [lia|].
Qed.

Lemma init_ok (size : pyval) s :
  isinstance_int size = true → 1 ≤ int_of size →
  __init__ size s = (inr (constructed size s).1, (constructed size s).2).
Proof.
  intros H Hle. unfold __init__.
  erewrite bind_ok by by apply check_int_ok.
  erewrite bind_ok by by apply check_positive_ok.
  reflexivity.
Qed.

Lemma init_inv (size : pyval) s self s1 :
  __init__ size s = (inr self, s1) →
  isinstance_int size = true ∧ 1 ≤ int_of size
  ∧ (self, s1) = constructed size s.
Proof.
  intros H. destruct (isinstance_int size) eqn:Hi.
  - destruct (Z.le_gt_cases 1 (int_of size)).
    + rewrite init_ok in H by done. by simplify_eq.
    + unfold __init__ in H. erewrite bind_ok in H by by apply check_int_ok.
      erewrite bind_exn in H by (apply check_value_error; [done|lia]). done.
  - unfold __init__ in H.
    erewrite bind_exn in H by by apply check_type_error. done.
Qed.

Lemma constructed_holds (size : pyval) s :
  1 ≤ int_of size →
  holds (constructed size s).1 (constructed size s).2 (int_of size) 0.
Proof.
  intros Hle. exists (fresh (dom (lists s))), []. simpl.
  rewrite !lookup_insert_eq. split_and!; [done..|]. simpl. lia.
Qed.

Lemma set_size_ok self (value : pyval) s r :
  reservoirs s !! self = Some r →
  isinstance_int value = true → 1 ≤ int_of value →
  set_size self value s
  = (inr tt, mkState _ (<[self := mkReservoir (int_of value) (_samples r) (_seen r)]>
                          (reservoirs s))
                     (lists s) (np_random s)).
Proof.
  intros Hr H Hle. unfold set_size.
  erewrite bind_ok by by apply check_int_ok.
  erewrite bind_ok by by apply check_positive_ok.
  by erewrite bind_ok by by apply load_ok.
Qed.

Lemma reset_ok self s r :
  reservoirs s !! self = Some r →
  reset self s
  = (inr tt,
     mkState _
       (<[self := mkReservoir (_size r) (fresh (dom (lists s))) 0]> (reservoirs s))
               (<[fresh (dom (lists s)) := []]> (lists s)) (np_random s)).
Proof.
  intros Hr. unfold reset.
  erewrite bind_ok by by apply load_ok.
  erewrite bind_ok by apply store_ok.
  erewrite bind_ok by apply new_list_ok.
  erewrite bind_ok by (apply load_ok; simpl; apply lookup_insert_eq).
  rewrite store_ok. simpl. by rewrite insert_insert_eq.
Qed.

(** *** Sequences of calls *)

Lemma accepted_seeding seed s :
  accepted seed → ∃ s0, seeding seed s = inr s0.
Proof.
  intros [->|(Hi & g & Hg)]; [by eexists|].
  unfold seeding. rewrite Hi, Hg. destruct seed; by eexists.
Qed.

Lemma sample_calls_app self calls more s :
  sample_calls self (calls ++ more) s
  = sample_calls self more (sample_calls self calls s).
Proof.
  revert s. induction calls as [|[gen seed] rest IH]; intros s; simpl; [done|].
  apply IH.
Qed.

Lemma exec_sample_holds self gen seed s c n :
  1 ≤ c → 0 ≤ n → holds self s c n →
  ∃ n', n ≤ n' ∧ holds self (exec (sample self gen seed) s) c n'.
Proof.
  intros Hc Hn H. unfold exec. rewrite sample_unfold.
  destruct (iter gen) as [e|items]; [exists n; by split|].
  destruct (seeding seed s) as [e|s0] eqn:Hs; [exists n; by split|].
  destruct (for_each_holds self items s0 c n Hc Hn) as (s' & -> & H').
  { by eapply holds_seeding. }
  exists (n + Z.of_nat (length items)). split; [lia|done].
Qed.

Lemma sample_calls_holds self calls s c n :
  1 ≤ c → 0 ≤ n → holds self s c n →
  ∃ n', n ≤ n' ∧ holds self (sample_calls self calls s) c n'.
Proof.
  intros Hc. revert s n. induction calls as [|[gen seed] rest IH]; intros s n Hn H.
  - exists n. by split.
  - destruct (exec_sample_holds self gen seed s c n Hc Hn H) as (n1 & Hn1 & H1).
    destruct (IH _ n1 ltac:(lia) H1) as (n2 & Hn2 & H2).
    exists n2. split; [lia|done].
Qed.



End Steps.

(** ** The properties *)
Section Claims.
Context `{NR : NumpyRandom}.

(** C1. A reservoir constructed with capacity [c >= 1] and used through calls
    of [sample] only holds [min(seen, c)] items after each call: as many as
    it has seen while [seen <= c], and [c] from the moment [seen > c] on,
    whatever calls follow. *)
Theorem capacity_bound (c : Z) (s : state) :
  1 ≤ c →
  ∃ self s1, __init__ (VInt c) s = (inr self, s1) ∧
    ∀ calls, ∃ r xs,
      reservoirs (sample_calls self calls s1) !! self = Some r
      ∧ lists (sample_calls self calls s1) !! _samples r = Some xs
      ∧ _size r = c
      ∧ Z.of_nat (length xs) = Z.min (_seen r) c
      ∧ (_seen r ≤ c → Z.of_nat (length xs) = _seen r)
      ∧ (c < _seen r → ∀ more, ∃ r' xs',
           reservoirs (sample_calls self (calls ++ more) s1) !! self = Some r'
           ∧ lists (sample_calls self (calls ++ more) s1) !! _samples r' = Some xs'
           ∧ Z.of_nat (length xs') = c).
Proof.
  intros Hc. rewrite (init_ok (VInt c)) by done.
  eexists _, _. split; [done|]. intros calls.
  pose proof (constructed_holds (VInt c) s Hc) as H0. simpl int_of in H0.
  destruct (sample_calls_holds _ calls _ c 0 Hc ltac:(done) H0)
    as (n & Hn & l & xs & Hr & Hxs & Hlen).
  exists (mkReservoir c l n), xs. simpl. split_and!; [done..|lia|].
  intros Hfull more. rewrite sample_calls_app.
  destruct (sample_calls_holds _ more _ c n Hc Hn (ex_intro _ l (ex_intro _ xs
    (conj Hr (conj Hxs Hlen))))) as (n' & Hn' & l' & xs' & Hr' & Hxs' & Hlen').
  exists (mkReservoir c l' n'), xs'. simpl. split_and!; [done..|lia].
Qed.



(** C7. A call of [sample] whose [gen] is not iterable, or whose seed is
    given and is not an integer, raises [TypeError] and leaves the whole
    store as it was: the instance, its list and the generator. *)
Theorem sample_rejects_early (self : loc) (gen : pyobj) (seed : pyval) (s : state) :
  (∃ e, iter gen = inl e) ∨ (seed ≠ VNone ∧ isinstance_int seed = false) →
  sample self gen seed s = (inl TypeError, s).
Proof.
  intros H. rewrite sample_unfold.
  destruct (iter gen) as [e|items]; [done|].
  destruct H as [[e He]|[Hseed Hi]]; [done|].
  unfold seeding. rewrite Hi. by destruct seed.
Qed.

(** C8. [reset] returns for every reservoir, with [seen] at 0, an empty
    sample and the size it had. *)
Theorem reset_clears (self : loc) (s : state) (r : Reservoir) :
  reservoirs s !! self = Some r →
  ∃ s' r', reset self s = (inr tt, s')
           ∧ reservoirs s' !! self = Some r'
           ∧ _seen r' = 0
           ∧ lists s' !! _samples r' = Some []
           ∧ _size r' = _size r.
Proof.
  intros Hr. rewrite (reset_ok _ _ _ Hr). eexists _, _. split; [done|]. simpl.
  rewrite lookup_insert_eq. split; [done|]. simpl.
  by rewrite lookup_insert_eq.
Qed.

(** C9. The setter of [size] with an integer at least 1 replaces the size
    and nothing else: the reference to the sample, the count, every list
    object and the generator are as before, whatever the length of the
    sample. *)
Theorem set_size_only_size (self : loc) (value : pyval) (s : state) (r : Reservoir) :
  reservoirs s !! self = Some r →
  isinstance_int value = true → 1 ≤ int_of value →
  ∃ s', set_size self value s = (inr tt, s')
        ∧ reservoirs s' !! self
          = Some (mkReservoir (int_of value) (_samples r) (_seen r))
        ∧ (∀ other, other ≠ self → reservoirs s' !! other = reservoirs s !! other)
        ∧ lists s' = lists s
        ∧ np_random s' = np_random s.
Proof.
  intros Hr Hi Hle. rewrite (set_size_ok _ _ _ _ Hr Hi Hle).
  eexists. split; [done|]. simpl. rewrite lookup_insert_eq.
  split_and!; [done| |done..]. intros other Hne. by rewrite lookup_insert_ne.
Qed.


End Claims.

Lemma fresh_start_holds `{NumpyRandom} self s1 :
  fresh_start self s1 → ∃ c, 1 ≤ c ∧ holds self s1 c 0.
Proof.
  intros [(size & s & Hinit)|(s & r & Hr & Hc & ->)].
  - apply init_inv in Hinit as (Hi & Hle & Heq).
    exists (int_of size). split; [done|].
    pose proof (constructed_holds size s Hle) as H0.
    by rewrite <-Heq in H0.
  - exists (_size r). split; [done|]. unfold exec. rewrite (reset_ok _ _ _ Hr).
    exists (fresh (dom (lists s))), []. simpl. rewrite !lookup_insert_eq.
    split_and!; [done..|]. simpl. lia.
Qed.

(** C10. As long as the size is not set after construction or [reset], every
    store between calls of [sample] has the slot index of the replacement
    phase in bounds, whatever the generator draws, and a call that passes
    its checks returns; the stores inside a call are those after a call with
    a shorter stream.  After the size is raised above the length of the
    sample, with more items seen than the old size, a call of [sample] can
    draw an index that is not below that length and raise [IndexError]. *)
Theorem slot_index_bounds :
  (∀ (NR : NumpyRandom) self s1 calls,
     fresh_start self s1 →
     ∃ r xs,
       reservoirs (sample_calls self calls s1) !! self = Some r
       ∧ lists (sample_calls self calls s1) !! _samples r = Some xs
       ∧ (_size r < _seen r + 1 →
          ∀ g, 0 ≤ (np_choice (_size r) g).1 < Z.of_nat (length xs))
       ∧ (∀ gen seed, passes (gen, seed) →
          ∃ s', sample self gen seed (sample_calls self calls s1) = (inr tt, s')))
  ∧ (let self := 1%positive in
     let s := (raised_size (LCG.boot 0)).2 in
     (raised_size (LCG.boot 0)).1 = inr self
     ∧ reservoirs s !! self = Some (mkReservoir 3 1%positive 4)
     ∧ lists s !! 1%positive = Some [VInt 13]
     ∧ (sample self (Seq [VInt 14]) VNone s).1 = inl IndexError).
Proof.
  split.
  - intros NR self s1 calls Hstart.
    destruct (fresh_start_holds self s1 Hstart) as (c & Hc & H0).
    destruct (sample_calls_holds self calls s1 c 0 Hc ltac:(done) H0)
      as (n & Hn & Hs).
    pose proof Hs as (l & xs & Hr & Hxs & Hlen).
    exists (mkReservoir c l n), xs. simpl. split_and!; [done..| |].
    + intros Hfull g. pose proof (np_choice_range c g ltac:(lia)). lia.
    + intros gen seed [[items Hit] Hacc]. simpl in *.
      destruct (accepted_seeding seed (sample_calls self calls s1) Hacc) as [s0 Hs0].
      destruct (sample_holds self gen seed (sample_calls self calls s1) c n items s0)
        as (s' & Hrun & _); [done..|].
      by exists s'.
  - split_and!; vm_compute; reflexivity.
Qed.

(** ** Concrete runs

    The properties above at concrete inputs, with the model generator. *)

(** The witness of C1: capacity 10, from the empty store. *)
Lemma capacity_bound_witness :
  1 ≤ 10
  ∧ ∃ self s1, __init__ (VInt 10) (LCG.boot 0) = (inr self, s1)
      ∧ ∃ r xs,
          reservoirs (sample_calls self [(Seq [VInt 7], VNone)] s1) !! self = Some r
          ∧ lists (sample_calls self [(Seq [VInt 7], VNone)] s1) !! _samples r = Some xs
          ∧ Z.of_nat (length xs) = Z.min (_seen r) 10.
Proof.
  split; [lia|].
  destruct (capacity_bound (NR := LCG.numpy) 10 (LCG.boot 0) ltac:(lia))
    as (self & s1 & Hinit & Hcalls).
  exists self, s1. split; [exact Hinit|].
  destruct (Hcalls [(Seq [VInt 7], VNone)]) as (r & xs & Hr & Hxs & _ & Hlen & _).
  exists r, xs. auto.
Defined.




(** The witness of C7: [sample(gen=5)]. *)
Lemma sample_rejects_early_witness :
  ((∃ e, iter (Val (VInt 5)) = inl e)
   ∨ (VNone ≠ VNone ∧ isinstance_int VNone = false))
  ∧ sample 1%positive (Val (VInt 5)) VNone (LCG.boot 0) = (inl TypeError, LCG.boot 0).
Proof.
  assert (H : (∃ e, iter (Val (VInt 5)) = inl e)
              ∨ (VNone ≠ VNone ∧ isinstance_int VNone = false))
    by (left; eexists; reflexivity).
  split; [exact H|].
  exact (sample_rejects_early (NR := LCG.numpy) 1%positive _ _ (LCG.boot 0) H).
Defined.

(** The witness of C8: [reset] after four items. *)
Lemma reset_clears_witness :
  let s := (raised_size (LCG.boot 0)).2 in
  reservoirs s !! 1%positive = Some (mkReservoir 3 1%positive 4)
  ∧ ∃ s' r', reset 1%positive s = (inr tt, s')
             ∧ reservoirs s' !! 1%positive = Some r'
             ∧ _seen r' = 0
             ∧ lists s' !! _samples r' = Some []
             ∧ _size r' = 3.
Proof.
  intros s.
  assert (Hr : reservoirs s !! 1%positive = Some (mkReservoir 3 1%positive 4))
    by (vm_compute; reflexivity).
  split; [exact Hr|].
  exact (reset_clears (NR := LCG.numpy) 1%positive s _ Hr).
Defined.

(** The witness of C9: the size of a reservoir set from 3 to 2. *)
Lemma set_size_only_size_witness :
  let s := (raised_size (LCG.boot 0)).2 in
  reservoirs s !! 1%positive = Some (mkReservoir 3 1%positive 4)
  ∧ isinstance_int (VInt 2) = true ∧ 1 ≤ int_of (VInt 2)
  ∧ ∃ s', set_size 1%positive (VInt 2) s = (inr tt, s')
          ∧ reservoirs s' !! 1%positive = Some (mkReservoir 2 1%positive 4)
          ∧ lists s' = lists s.
Proof.
  intros s.
  assert (Hr : reservoirs s !! 1%positive = Some (mkReservoir 3 1%positive 4))
    by (vm_compute; reflexivity).
  assert (Hle : 1 ≤ int_of (VInt 2)) by (simpl; lia).
  split_and!; [exact Hr|reflexivity|exact Hle|].
  destruct (set_size_only_size (NR := LCG.numpy) 1%positive (VInt 2) s _ Hr eq_refl Hle)
    as (s' & Hrun & Hr' & _ & Hlists & _).
  exists s'. split_and!; [exact Hrun|exact Hr'|exact Hlists].
Defined.



(** The witness of C10: a reservoir of size 2 right after construction. *)
Lemma slot_index_bounds_witness :
  let self := (constructed (VInt 2) (LCG.boot 0)).1 in
  let s1 := (constructed (VInt 2) (LCG.boot 0)).2 in
  fresh_start self s1
  ∧ ∃ s', sample self (Seq [VInt 1; VInt 2; VInt 3]) VNone s1 = (inr tt, s').
Proof.
  intros self s1.
  assert (Hstart : fresh_start self s1).
  { left. exists (VInt 2), (LCG.boot 0).
    apply (init_ok (NR := LCG.numpy)); [reflexivity|simpl; lia]. }
  split; [exact Hstart|].
  destruct (proj1 slot_index_bounds LCG.numpy self s1 [] Hstart)
    as (r & xs & _ & _ & _ & Hruns).
  apply Hruns. split; simpl; [eexists; reflexivity|left; reflexivity].
Defined.

(** C6 on the code.  Assigning to [samples] or [seen] raises
    [AttributeError] and changes nothing, and reading them gives the current
    values; but what [samples] gives is the list object of the reservoir
    itself, so an [append] by the caller lands in the sample of the
    reservoir: it then holds three items with two seen. *)
Theorem samples_getter_shares_list :
  (∀ (NR : NumpyRandom) self value s,
     setattr self Psamples value s = (inl AttributeError, s)
     ∧ setattr self Pseen value s = (inl AttributeError, s))
  ∧ (∀ (NR : NumpyRandom) self s r xs item,
       reservoirs s !! self = Some r →
       lists s !! _samples r = Some xs →
       ∃ s', (l ← samples self; append l item) s = (inr tt, s')
             ∧ reservoirs s' !! self = Some r
             ∧ lists s' !! _samples r = Some (xs ++ [item]))
  ∧ (shared_list (LCG.boot 0)).1 = inr ([VInt 1; VInt 2; VInt 99], 2).
Proof.
  split_and!.
  - intros. split; reflexivity.
  - intros NR self s r xs item Hr Hxs.
    erewrite bind_ok by by apply samples_ok.
    erewrite append_ok by done.
    eexists. split; [done|]. simpl. by rewrite lookup_insert_eq.
  - vm_compute. reflexivity.
Qed.

(** The witness of C6 on the code: a reservoir with one item. *)
Lemma samples_getter_shares_list_witness :
  let s := mkState LCG.numpy {[ 1%positive := mkReservoir 3 1%positive 1 ]}
             {[ 1%positive := [VInt 5] ]} 0 in
  reservoirs s !! 1%positive = Some (mkReservoir 3 1%positive 1)
  ∧ lists s !! 1%positive = Some [VInt 5]
  ∧ ∃ s', (l ← samples 1%positive; append l (VInt 6)) s = (inr tt, s')
          ∧ lists s' !! 1%positive = Some [VInt 5; VInt 6].
Proof.
  intros s.
  assert (Hr : reservoirs s !! 1%positive = Some (mkReservoir 3 1%positive 1))
    by (vm_compute; reflexivity).
  assert (Hxs : lists s !! 1%positive = Some [VInt 5]) by (vm_compute; reflexivity).
  split_and!; [exact Hr|exact Hxs|].
  destruct (proj1 (proj2 samples_getter_shares_list) LCG.numpy 1%positive s _ _
              (VInt 6) Hr Hxs) as (s' & Hrun & _ & Hl).
  exists s'. split; [exact Hrun|exact Hl].
Defined.

(** ** The loop over distributions: lemmas *)
Module IdealFacts.
Import Ideal.
Local Open Scope Qc_scope.











Lemma sumQ_plus f g l : sumQ (λ i, f i + g i) l = sumQ f l + sumQ g l.
Proof. induction l as [|i l IH]; simpl; [ring|]. rewrite IH. ring. Qed.


(** *** Items *)
Section Items.
Context {T : Type} `{EqDecision T}.









(** *** One item *)












(** *** The stream *)


Lemma elem_of_dbind_2 {A B} (d : dist A) (k : A → dist B) w a v b :
  (w, a) ∈ d → (v, b) ∈ k a → (w * v, b) ∈ dbind d k.
Proof.
  intros Hwa Hvb. unfold dbind. apply list_elem_of_In, in_flat_map.
  exists (w, a). split; [by apply list_elem_of_In|].
  apply list_elem_of_In, list_elem_of_fmap. by exists (v, b).
Qed.

Lemma for_each_raised c (rest : list T) e :
  for_each c rest (inl e) = dret (inl e).
Proof. by destruct rest. Qed.

(** *** Items told apart by their positions *)



Lemma snd_labelled (items : list T) : (labelled items).*2 = items.
Proof.
  unfold labelled. rewrite fmap_imap.
  rewrite (imap_ext _ (const id)) by done. rewrite imap_const. apply list_fmap_id.
Qed.

Lemma dmap_dret {A B} (f : A → B) a : dmap f (dret a) = dret (f a).
Proof. reflexivity. Qed.

Lemma dmap_scale {A B} (f : A → B) w (d : dist A) :
  dmap f (scale w d) = scale w (dmap f d).
Proof. unfold dmap, scale. rewrite !map_map. reflexivity. Qed.

Lemma dmap_dbind {A B C} (f : B → C) (d : dist A) (k : A → dist B) :
  dmap f (dbind d k) = dbind d (λ a, dmap f (k a)).
Proof.
  induction d as [|[w a] d IH]; [done|].
  change (dbind ((w, a) :: d) k) with (scale w (k a) ++ dbind d k).
  unfold dmap at 1. rewrite map_app. fold (dmap f (scale w (k a))).
  fold (dmap f (dbind d k)). by rewrite IH, dmap_scale.
Qed.

Lemma dbind_dmap {A B C} (f : A → B) (d : dist A) (k : B → dist C) :
  dbind (dmap f d) k = dbind d (λ a, k (f a)).
Proof.
  induction d as [|[w a] d IH]; [done|].
  change (dbind (dmap f ((w, a) :: d)) k)
    with (scale w (k (f a)) ++ dbind (dmap f d) k).
  by rewrite IH.
Qed.

Lemma dbind_ext {A B} (d : dist A) (k k' : A → dist B) :
  (∀ a, k a = k' a) → dbind d k = dbind d k'.
Proof.
  intros Hk. induction d as [|[w a] d IH]; [done|].
  change (scale w (k a) ++ dbind d k = scale w (k' a) ++ dbind d k').
  by rewrite Hk, IH.
Qed.

(** The loop does not look into the items: run on items with positions and
    the positions forgotten, it is the loop run on the items. *)
Lemma sample_item_forget c (y : nat * T) n (xs : list (nat * T)) :
  sample_item c y.2 (n, xs.*2) = dmap forget (sample_item c y (n, xs)).
Proof.
  unfold sample_item. cbn [fst snd].
  destruct (_ <=? _).
  - rewrite dmap_dret. unfold forget. cbn [fst snd]. by rewrite fmap_app.
  - rewrite dmap_dbind. apply dbind_ext. intros [|]; [|done].
    rewrite dmap_dbind. apply dbind_ext. intros i. rewrite length_fmap.
    destruct (_ <? _); [|done].
    rewrite dmap_dret. unfold forget. cbn [fst snd]. by rewrite list_fmap_insert.
Qed.

Lemma for_each_forget c (items : list (nat * T)) (o : outcome (nat * T)) :
  for_each c items.*2 (forget o) = dmap forget (for_each c items o).
Proof.
  revert o. induction items as [|y rest IH]; intros o; [done|].
  destruct o as [e|[n xs]]; [done|].
  change (dbind (sample_item c y.2 (n, xs.*2)) (for_each c rest.*2)
          = dmap forget (dbind (sample_item c y (n, xs)) (for_each c rest))).
  rewrite sample_item_forget, dbind_dmap, dmap_dbind.
  apply dbind_ext. intros o. apply IH.
Qed.

Lemma for_each_labelled c (items : list T) :
  for_each c items (inr (0%Z, []))
  = dmap forget (for_each c (labelled items) (inr (0%Z, []))).
Proof.
  rewrite <-for_each_forget. by rewrite snd_labelled.
Qed.

End Items.

End IdealFacts.

(** ** The program and the loop over distributions

    What the program leaves after an item, whatever the generator, is an
    outcome of the loop over distributions. *)
Section Refinement.
Context `{NR : NumpyRandom}.

Lemma sample_item_in_ideal self item s r xs :
  reservoirs s !! self = Some r →
  lists s !! _samples r = Some xs →
  1 ≤ _size r → 0 ≤ _seen r →
  (∃ w, (w, observe self (sample_item self item s))
        ∈ Ideal.sample_item (_size r) item (_seen r, xs))
  ∧ (∀ s1, sample_item self item s = (inr tt, s1) →
       ∃ xs1, reservoirs s1 !! self = Some (bump r)
              ∧ lists s1 !! _samples r = Some xs1
              ∧ observe self (sample_item self item s) = inr (_seen r + 1, xs1)).
Proof.
  intros Hr Hxs Hc Hn. unfold Ideal.sample_item. cbn [fst snd].
  destruct (Z.leb_spec (_seen r + 1) (_size r)) as [Hfill|Hfull].
  - rewrite (sample_item_fill _ _ _ _ _ Hr Hxs Hfill).
    assert (Hobs : observe self (inr (), stored s self r (xs ++ [item]) (np_random s))
                   = inr (_seen r + 1, xs ++ [item])).
    { unfold observe, stored. simpl. by rewrite !lookup_insert_eq. }
    rewrite Hobs. split.
    + eexists. by apply list_elem_of_singleton.
    + intros s1 [= <-]. exists (xs ++ [item]). simpl.
      by rewrite !lookup_insert_eq.
  - rewrite (sample_item_replace _ _ _ _ _ Hr Hxs) by lia.
    destruct (np_uniform (np_random s)) as [u g1].
    destruct (float_le u _).
    + pose proof (np_choice_range (_size r) g1 ltac:(lia)) as Hi.
      destruct (np_choice (_size r) g1) as [i g2]. simpl in Hi.
      assert (Hslot : ((1 / Qc_of_Z (_size r))%Qc, i) ∈ Ideal.uniform_below (_size r)).
      { unfold Ideal.uniform_below. apply list_elem_of_fmap.
        exists (Z.to_nat i). split; [by rewrite Z2Nat.id by lia|].
        apply elem_of_seq. lia. }
      destruct (Z.ltb_spec i (Z.of_nat (length xs))) as [Hin|Hout].
      * assert (Hobs : observe self
                  (inr (), stored s self r (<[Z.to_nat i := item]> xs) g2)
                = inr (_seen r + 1, <[Z.to_nat i := item]> xs)).
        { unfold observe, stored. simpl. by rewrite !lookup_insert_eq. }
        rewrite Hobs. split.
        -- eexists. eapply IdealFacts.elem_of_dbind_2; [by left|].
           eapply IdealFacts.elem_of_dbind_2; [exact Hslot|].
           destruct (Z.ltb_spec i (Z.of_nat (length xs))); [|lia].
           by apply list_elem_of_singleton.
        -- intros s1 [= <-]. exists (<[Z.to_nat i := item]> xs). simpl.
           by rewrite !lookup_insert_eq.
      * split; [|done]. eexists. eapply IdealFacts.elem_of_dbind_2; [by left|].
        eapply IdealFacts.elem_of_dbind_2; [exact Hslot|].
        destruct (Z.ltb_spec i (Z.of_nat (length xs))); [lia|].
        by apply list_elem_of_singleton.
    + assert (Hobs : observe self (inr (), counted s self r g1)
                     = inr (_seen r + 1, xs)).
      { unfold observe, counted. simpl. rewrite lookup_insert_eq.
        unfold bump. simpl. by rewrite Hxs. }
      rewrite Hobs. split.
      * eexists. eapply IdealFacts.elem_of_dbind_2; [right; by left|].
        by apply list_elem_of_singleton.
      * intros s1 [= <-]. exists xs. simpl. by rewrite lookup_insert_eq.
Qed.

Lemma for_each_in_ideal self items s r xs :
  reservoirs s !! self = Some r →
  lists s !! _samples r = Some xs →
  1 ≤ _size r → 0 ≤ _seen r →
  ∃ w, (w, observe self (for_each items (sample_item self) s))
       ∈ Ideal.for_each (_size r) items (inr (_seen r, xs)).
Proof.
  revert s r xs. induction items as [|item rest IH]; intros s r xs Hr Hxs Hc Hn.
  - exists 1%Qc. apply list_elem_of_singleton. unfold observe. simpl.
    by rewrite Hr, Hxs.
  - destruct (sample_item_in_ideal self item s r xs Hr Hxs Hc Hn) as [[w Hw] Hnext].
    change (for_each (item :: rest) (sample_item self))
      with (sample_item self item;; for_each rest (sample_item self)).
    change (Ideal.for_each (_size r) (item :: rest) (inr (_seen r, xs)))
      with (Ideal.dbind (Ideal.sample_item (_size r) item (_seen r, xs))
              (Ideal.for_each (_size r) rest)).
    destruct (sample_item self item s) as [[e|[]] s1] eqn:E.
    + erewrite bind_exn by done.
      change (observe self (inl e, s1)) with (inl e : Ideal.outcome pyval) in Hw |- *.
      eexists. eapply IdealFacts.elem_of_dbind_2; [exact Hw|].
      rewrite IdealFacts.for_each_raised. by apply list_elem_of_singleton.
    + erewrite bind_ok by done.
      destruct (Hnext s1 eq_refl) as (xs1 & Hr1 & Hxs1 & Hobs).
      rewrite Hobs in Hw.
      destruct (IH s1 (bump r) xs1 Hr1 Hxs1 Hc ltac:(simpl; lia)) as [w' Hw'].
      eexists. eapply IdealFacts.elem_of_dbind_2; [exact Hw|exact Hw'].
Qed.

(** A call of [sample] on a reservoir just constructed with size [c]: what
    the caller sees afterwards is an outcome of the loop over distributions
    started from the empty sample. *)
Lemma sample_in_ideal (c : Z) items seed s s0 :
  1 ≤ c →
  seeding seed (constructed (VInt c) s).2 = inr s0 →
  ∃ w, (w, observe (constructed (VInt c) s).1
             (sample (constructed (VInt c) s).1 (Seq items) seed
                (constructed (VInt c) s).2))
       ∈ Ideal.for_each c items (inr (0, [])).
Proof.
  intros Hc Hseed. rewrite sample_unfold, Hseed. simpl iter.
  apply seeding_reservoirs in Hseed as [Hres Hlists].
  apply (for_each_in_ideal _ items s0 (mkReservoir c (fresh (dom (lists s))) 0) []);
    simpl; [| |done..].
  - rewrite Hres. simpl. by rewrite lookup_insert_eq.
  - rewrite Hlists. simpl. by rewrite lookup_insert_eq.
Qed.

End Refinement.

(** ** The chance of an item to be in the sample *)




(** * More properties of the class *)

(** ** The loop on views *)
Section ViewFacts.
Context `{NR : NumpyRandom}.

Lemma view_of_Some self s v :
  view_of self s = Some v →
  ∃ r xs, reservoirs s !! self = Some r
          ∧ lists s !! _samples r = Some xs
          ∧ v = mkView (_size r) (_seen r) xs (np_random s).
Proof.
  unfold view_of. destruct (reservoirs s !! self) as [r|] eqn:Hr; [|done].
  destruct (lists s !! _samples r) as [xs|] eqn:Hxs; [|done].
  intros [= <-]. by exists r, xs.
Qed.

Lemma same_elsewhere_refl self s r :
  reservoirs s !! self = Some r → same_elsewhere self s s.
Proof. intros Hr. by exists r, r. Qed.

Lemma same_elsewhere_trans self s1 s2 s3 :
  same_elsewhere self s1 s2 → same_elsewhere self s2 s3 →
  same_elsewhere self s1 s3.
Proof.
  intros (r1 & r2 & Hr1 & Hr2 & Hl & Ho & Hf) (r2' & r3 & Hr2' & Hr3 & Hl' & Ho' & Hf').
  assert (r2' = r2) as -> by congruence.
  exists r1, r3. repeat split.
  - exact Hr1.
  - exact Hr3.
  - congruence.
  - intros other Hne. by rewrite Ho', Ho.
  - intros l Hne. rewrite Hf' by congruence. by apply Hf.
Qed.

(** One item: the program does on the store what [item_step] does on the
    view, and nothing else. *)
Lemma sample_item_view self item s v :
  view_of self s = Some v → valid v →
  ∃ s', sample_item self item s = ((item_step item v).1, s')
        ∧ view_of self s' = Some (item_step item v).2
        ∧ same_elsewhere self s s'.
Proof.
  intros (r & xs & Hr & Hxs & ->)%view_of_Some [Hc Hn]. simpl in Hc, Hn.
  unfold item_step. simpl.
  assert (Hframe : ∀ xs' g, same_elsewhere self s (stored s self r xs' g)).
  { intros xs' g. exists r, (bump r). simpl. rewrite lookup_insert_eq.
    split_and!; [done..| |].
    - intros other Hne. by rewrite lookup_insert_ne.
    - intros l Hne. by rewrite lookup_insert_ne. }
  assert (Hframe' : ∀ g, same_elsewhere self s (counted s self r g)).
  { intros g. exists r, (bump r). simpl. rewrite lookup_insert_eq.
    split_and!; [done..| |done].
    intros other Hne. by rewrite lookup_insert_ne. }
  assert (Hview : ∀ xs' g, view_of self (stored s self r xs' g)
                           = Some (mkView (_size r) (_seen r + 1) xs' g)).
  { intros xs' g. unfold view_of, stored. simpl.
    rewrite lookup_insert_eq. simpl. by rewrite lookup_insert_eq. }
  assert (Hview' : ∀ g, view_of self (counted s self r g)
                        = Some (mkView (_size r) (_seen r + 1) xs g)).
  { intros g. unfold view_of, counted. simpl.
    rewrite lookup_insert_eq. simpl. by rewrite Hxs. }
  destruct (Z.leb_spec (_seen r + 1) (_size r)) as [Hfill|Hfull].
  - rewrite (sample_item_fill _ _ _ _ _ Hr Hxs Hfill). eexists. split; [done|].
    simpl. split; [apply Hview|apply Hframe].
  - rewrite (sample_item_replace _ _ _ _ _ Hr Hxs) by lia.
    destruct (np_uniform (np_random s)) as [u g1].
    destruct (float_le u _).
    + destruct (np_choice (_size r) g1) as [i g2].
      destruct (_ <? _); eexists; (split; [done|]); simpl.
      * split; [apply Hview|apply Hframe].
      * split; [apply Hview'|apply Hframe'].
    + eexists. split; [done|]. simpl. split; [apply Hview'|apply Hframe'].
Qed.

Lemma item_step_valid item v : valid v → valid (item_step item v).2.
Proof.
  intros [Hc Hn]. unfold item_step, valid.
  destruct (_ <=? _); [simpl; lia|].
  destruct (np_uniform _) as [u g1]. destruct (float_le _ _); [|simpl; lia].
  destruct (np_choice _ _) as [i g2]. destruct (_ <? _); simpl; lia.
Qed.

Lemma loop_steps_valid items v : valid v → valid (loop_steps items v).2.
Proof.
  revert v. induction items as [|item rest IH]; intros v Hv; [done|]. simpl.
  pose proof (item_step_valid item v Hv) as Hv'.
  destruct (item_step item v) as [[e|[]] v']; [done|]. by apply IH.
Qed.

(** The loop: the same for a whole stream. *)
Lemma for_each_view self items s v :
  view_of self s = Some v → valid v →
  ∃ s', for_each items (sample_item self) s = ((loop_steps items v).1, s')
        ∧ view_of self s' = Some (loop_steps items v).2
        ∧ same_elsewhere self s s'.
Proof.
  revert s v. induction items as [|item rest IH]; intros s v Hview Hv.
  - exists s. split_and!; [done..|].
    apply view_of_Some in Hview as (r & ? & ? & _). by eapply same_elsewhere_refl.
  - destruct (sample_item_view self item s v Hview Hv) as (s1 & Hrun & Hview1 & Hsame1).
    pose proof (item_step_valid item v Hv) as Hv1.
    simpl loop_steps.
    change (for_each (item :: rest) (sample_item self))
      with (sample_item self item;; for_each rest (sample_item self)).
    destruct (item_step item v) as [[e|[]] v1]; simpl in *.
    + exists s1. by erewrite bind_exn by done.
    + destruct (IH s1 v1 Hview1 Hv1) as (s2 & Hrest & Hview2 & Hsame2).
      exists s2. erewrite bind_ok by done.
      split_and!; [done..|]. by eapply same_elsewhere_trans.
Qed.

Lemma seeding_view_ok self seed s v :
  view_of self s = Some v →
  match seeding seed s with
  | inl e => seeding_view seed v = inl e
  | inr s0 => seeding_view seed v = inr (reseeded_view v (np_random s0))
              ∧ view_of self s0 = Some (reseeded_view v (np_random s0))
              ∧ reservoirs s0 = reservoirs s ∧ lists s0 = lists s
  end.
Proof.
  intros (r & xs & Hr & Hxs & ->)%view_of_Some.
  assert (Hsame : ∀ g, view_of self (reseeded s g)
                       = Some (mkView (_size r) (_seen r) xs g)).
  { intros g. unfold view_of, reseeded. simpl. by rewrite Hr, Hxs. }
  unfold seeding, seeding_view.
  destruct seed; simpl; try done.
  - split_and!; [done| |done..]. unfold view_of. by rewrite Hr, Hxs.
  - destruct (np_seed _) as [e|g]; [done|]. split_and!; [done|apply Hsame|done..].
  - destruct (np_seed _) as [e|g]; [done|]. split_and!; [done|apply Hsame|done..].
Qed.

Lemma seeding_view_valid seed v v0 :
  seeding_view seed v = inr v0 → valid v → valid v0.
Proof.
  unfold seeding_view. intros H Hv.
  destruct seed; simpl in H; simplify_eq; try done;
    by destruct (np_seed _); simplify_eq.
Qed.

(** A call of [sample] on a store is [sample_on_view] on the view. *)
Lemma sample_on_view_ok self gen seed s v :
  view_of self s = Some v → valid v →
  ∃ s', sample self gen seed s = ((sample_on_view gen seed v).1, s')
        ∧ view_of self s' = Some (sample_on_view gen seed v).2
        ∧ same_elsewhere self s s'.
Proof.
  intros Hview Hv. rewrite sample_unfold. unfold sample_on_view.
  pose proof Hview as (r & xs & Hr & Hxs & _)%view_of_Some.
  destruct (iter gen) as [e|items].
  { exists s. split_and!; [done..|]. by eapply same_elsewhere_refl. }
  pose proof (seeding_view_ok self seed s v Hview) as Hseed.
  destruct (seeding seed s) as [e|s0].
  { rewrite Hseed. exists s. split_and!; [done..|]. by eapply same_elsewhere_refl. }
  destruct Hseed as (-> & Hview0 & Hres & Hlists).
  destruct (for_each_view self items s0 _ Hview0) as (s' & Hrun & Hview' & Hsame).
  { done. }
  exists s'. split_and!; [done..|].
  destruct Hsame as (r0 & r' & Hr0 & Hr' & Hl & Ho & Hf).
  rewrite Hres in Hr0, Ho. rewrite Hlists in Hf.
  by exists r0, r'.
Qed.

(** *** What the loop does to a view *)

Lemma elem_of_list_insert_inv (x y : pyval) (xs : list pyval) (i : nat) :
  x ∈ <[i := y]> xs → x ∈ xs ∨ x = y.
Proof.
  revert i. induction xs as [|a xs IH]; intros [|i]; simpl; try by left.
  - intros [-> |H]%elem_of_cons; [by right|]. left. by right.
  - intros [-> |H]%elem_of_cons; [left; by left|].
    destruct (IH i H) as [H'| ->]; [|by right]. left. by right.
Qed.

Lemma item_step_facts item v :
  v_size (item_step item v).2 = v_size v
  ∧ v_seen (item_step item v).2 = v_seen v + 1
  ∧ (∀ x, x ∈ v_items (item_step item v).2 → x ∈ v_items v ∨ x = item)
  ∧ (Z.of_nat (length (v_items v)) ≤ v_seen v →
     Z.of_nat (length (v_items (item_step item v).2)) ≤ v_seen v + 1).
Proof.
  unfold item_step. destruct (_ <=? _).
  { simpl. split_and!; [done..| |].
    - intros x [H| ->%list_elem_of_singleton]%elem_of_app; auto.
    - rewrite length_app. simpl. lia. }
  destruct (np_uniform _) as [u g1]. destruct (float_le _ _).
  - destruct (np_choice _ _) as [i g2]. destruct (_ <? _); simpl.
    + split_and!; [done..| |].
      * intros x. apply elem_of_list_insert_inv.
      * rewrite length_insert. lia.
    + split_and!; [done..|auto|lia].
  - simpl. split_and!; [done..|auto|lia].
Qed.

Lemma loop_steps_facts items v :
  v_size (loop_steps items v).2 = v_size v
  ∧ (∃ k, 0 ≤ k ≤ Z.of_nat (length items)
          ∧ v_seen (loop_steps items v).2 = v_seen v + k
          ∧ ((loop_steps items v).1 = inr tt → k = Z.of_nat (length items)))
  ∧ (∀ x, x ∈ v_items (loop_steps items v).2 → x ∈ v_items v ∨ x ∈ items)
  ∧ (Z.of_nat (length (v_items v)) ≤ v_seen v →
     Z.of_nat (length (v_items (loop_steps items v).2))
     ≤ v_seen (loop_steps items v).2).
Proof.
  revert v. induction items as [|item rest IH]; intros v.
  - simpl. split_and!; [done| |auto|done]. exists 0. split_and!; [lia..|done].
  - destruct (item_step_facts item v) as (Hsize & Hseen & Hsub & Hlen).
    simpl loop_steps. destruct (item_step item v) as [[e|[]] v1]; simpl in *.
    + split_and!; [done| | |].
      * exists 1. split_and!; [lia..|done].
      * intros x Hx. destruct (Hsub x Hx) as [?| ->]; [by left|right; by left].
      * intros. rewrite Hseen. auto.
    + destruct (IH v1) as (Hsize' & (k & Hk & Hseen' & Hall) & Hsub' & Hlen').
      split_and!.
      * congruence.
      * exists (1 + k). split_and!; [lia..|]. intros H. rewrite (Hall H). lia.
      * intros x Hx. destruct (Hsub' x Hx) as [Hx1|Hx1]; [|right; by right].
        destruct (Hsub x Hx1) as [?| ->]; [by left|right; by left].
      * intros H. apply Hlen'. rewrite Hseen. auto.
Qed.

(** While the count stays within the size the loop appends, in order, and
    draws nothing. *)
Lemma loop_steps_fill items v :
  v_seen v + Z.of_nat (length items) ≤ v_size v →
  loop_steps items v
  = (inr tt, mkView (v_size v) (v_seen v + Z.of_nat (length items))
               (v_items v ++ items) (v_rng v)).
Proof.
  revert v. induction items as [|item rest IH]; intros v Hle.
  - simpl. rewrite Z.add_0_r, app_nil_r. by destruct v.
  - simpl length in Hle. simpl loop_steps. unfold item_step.
    destruct (Z.leb_spec (v_seen v + 1) (v_size v)); [|lia].
    rewrite IH by (simpl; lia). simpl. do 2 f_equal; [lia|].
    by rewrite <-app_assoc.
Qed.

(** With at least [size] items in the sample the loop returns, keeps the
    length of the sample and leaves the slots from index [size] on alone. *)
Lemma loop_steps_full items v :
  1 ≤ v_size v →
  v_size v ≤ Z.of_nat (length (v_items v)) ≤ v_seen v →
  (loop_steps items v).1 = inr tt
  ∧ v_seen (loop_steps items v).2 = v_seen v + Z.of_nat (length items)
  ∧ length (v_items (loop_steps items v).2) = length (v_items v)
  ∧ drop (Z.to_nat (v_size v)) (v_items (loop_steps items v).2)
    = drop (Z.to_nat (v_size v)) (v_items v).
Proof.
  revert v. induction items as [|item rest IH]; intros v Hc Hfull.
  - simpl. split_and!; [done|lia|done..].
  - simpl loop_steps.
    assert (Hstep : ∃ v1, item_step item v = (inr tt, v1)
                          ∧ v_size v1 = v_size v
                          ∧ v_seen v1 = v_seen v + 1
                          ∧ length (v_items v1) = length (v_items v)
                          ∧ drop (Z.to_nat (v_size v)) (v_items v1)
                            = drop (Z.to_nat (v_size v)) (v_items v)).
    { unfold item_step. destruct (Z.leb_spec (v_seen v + 1) (v_size v)); [lia|].
      destruct (np_uniform _) as [u g1]. destruct (float_le _ _).
      - pose proof (np_choice_range (v_size v) g1 ltac:(lia)) as Hi.
        destruct (np_choice _ _) as [i g2]. simpl in Hi.
        destruct (Z.ltb_spec i (Z.of_nat (length (v_items v)))); [|lia].
        eexists. split; [done|]. simpl. rewrite length_insert.
        split_and!; [done..|]. apply drop_insert_lt. lia.
      - eexists. split; [done|]. simpl. done. }
    destruct Hstep as (v1 & -> & Hsize & Hseen & Hlen & Hdrop).
    destruct (IH v1) as (Hres & Hseen' & Hlen' & Hdrop'); [lia..|].
    rewrite Hsize in Hdrop'. simpl length.
    split_and!; [done|lia|congruence|congruence].
Qed.

(** *** What a call of [sample] does to a view *)

Lemma seeding_view_content seed v v0 :
  seeding_view seed v = inr v0 →
  v_size v0 = v_size v ∧ v_seen v0 = v_seen v ∧ v_items v0 = v_items v.
Proof.
  unfold seeding_view. intros H.
  destruct seed; simpl in H; simplify_eq; try done;
    by destruct (np_seed _); simplify_eq.
Qed.

Lemma sample_on_view_facts gen seed v :
  v_size (sample_on_view gen seed v).2 = v_size v
  ∧ (∀ x, x ∈ v_items (sample_on_view gen seed v).2 →
       x ∈ v_items v ∨ ∃ items, iter gen = inr items ∧ x ∈ items)
  ∧ (Z.of_nat (length (v_items v)) ≤ v_seen v →
     Z.of_nat (length (v_items (sample_on_view gen seed v).2))
     ≤ v_seen (sample_on_view gen seed v).2).
Proof.
  unfold sample_on_view. destruct (iter gen) as [e|items]; [by auto|].
  destruct (seeding_view seed v) as [e|v0] eqn:Hseed; [by auto|].
  apply seeding_view_content in Hseed as (Hsize & Hseen & Hitems).
  destruct (loop_steps_facts items v0) as (Hsize' & _ & Hsub & Hlen).
  rewrite Hsize, Hitems in *. split_and!; [done| |].
  - intros x Hx. destruct (Hsub x Hx); [by left|right; by exists items].
  - intros H. apply Hlen. by rewrite Hseen.
Qed.

(** *** The calls of a user *)

Lemma set_size_exec self value s r :
  reservoirs s !! self = Some r →
  exec (set_size self value) s
  = if isinstance_int value && (1 <=? int_of value) then
      mkState _ (<[self := mkReservoir (int_of value) (_samples r) (_seen r)]>
                   (reservoirs s))
                (lists s) (np_random s)
    else s.
Proof.
  intros Hr. unfold exec. destruct (isinstance_int value) eqn:Hi; simpl.
  - destruct (Z.leb_spec 1 (int_of value)).
    + by rewrite (set_size_ok _ _ _ _ Hr).
    + unfold set_size. erewrite bind_ok by by apply check_int_ok.
      by erewrite bind_exn by (apply check_value_error; [done|lia]).
  - unfold set_size. by erewrite bind_exn by by apply check_type_error.
Qed.

Lemma fresh_list_ne (s : state) l xs :
  lists s !! l = Some xs → l ≠ fresh (dom (lists s)).
Proof.
  intros Hl ->. apply (is_fresh (dom (lists s))). apply elem_of_dom. by eexists.
Qed.

Lemma do_call_sound self c s :
  sound self s →
  sound self (exec (do_call self c) s)
  ∧ (∀ other, other ≠ self →
       reservoirs (exec (do_call self c) s) !! other = reservoirs s !! other)
  ∧ (∀ l xs, foreign self s l xs → foreign self (exec (do_call self c) s) l xs).
Proof.
  intros (v & Hview & Hc & Hlen).
  pose proof Hview as (r & xs & Hr & Hxs & ->)%view_of_Some. simpl in Hc, Hlen.
  destruct c as [gen seed|value|]; simpl do_call.
  - destruct (sample_on_view_ok self gen seed s _ Hview) as (s' & Hrun & Hview' & Hsame).
    { split; simpl; lia. }
    unfold exec. rewrite Hrun. simpl.
    destruct (sample_on_view_facts gen seed
                (mkView (_size r) (_seen r) xs (np_random s)))
      as (Hsize & _ & Hlen').
    destruct Hsame as (r0 & r' & Hr0 & Hr' & Hl & Ho & Hf).
    assert (r0 = r) as -> by congruence.
    split_and!.
    + eexists. split; [done|]. split; [by rewrite Hsize|by apply Hlen'].
    + done.
    + intros l ys [Hl1 Hl2]. split.
      * rewrite Hf; [done|]. by apply Hl2.
      * intros r'' Hr''. assert (r'' = r') as -> by congruence.
        rewrite Hl. by apply Hl2.
  - rewrite (set_size_exec _ _ _ _ Hr). destruct (_ && _) eqn:Hok.
    + apply andb_prop in Hok as [_ Hle%Z.leb_le]. split_and!.
      * eexists. unfold view_of. simpl. rewrite lookup_insert_eq. simpl.
        rewrite Hxs. split; [done|]. simpl. split; [done|lia].
      * intros other Hne. simpl. by rewrite lookup_insert_ne.
      * intros l ys [Hl1 Hl2]. split; [done|]. simpl.
        rewrite lookup_insert_eq. intros ? [= <-]. simpl. by apply Hl2.
    + split_and!; [|done..]. exists (mkView (_size r) (_seen r) xs (np_random s)).
      by split_and!.
  - unfold exec. rewrite (reset_ok _ _ _ Hr). simpl. split_and!.
    + eexists. unfold view_of. simpl. rewrite lookup_insert_eq. simpl.
      rewrite lookup_insert_eq. split; [done|]. simpl. split; [done|lia].
    + intros other Hne. by rewrite lookup_insert_ne.
    + intros l ys [Hl1 Hl2]. pose proof (fresh_list_ne s l ys Hl1) as Hne.
      split; simpl.
      * by rewrite lookup_insert_ne.
      * rewrite lookup_insert_eq. intros ? [= <-]. done.
Qed.

Lemma use_sound self calls s :
  sound self s →
  sound self (use self calls s)
  ∧ (∀ other, other ≠ self →
       reservoirs (use self calls s) !! other = reservoirs s !! other)
  ∧ (∀ l xs, foreign self s l xs → foreign self (use self calls s) l xs).
Proof.
  revert s. induction calls as [|c rest IH]; intros s Hs; [done|].
  destruct (do_call_sound self c s Hs) as (Hs1 & Ho1 & Hf1).
  destruct (IH _ Hs1) as (Hs2 & Ho2 & Hf2). simpl use.
  split_and!; [done| |].
  - intros other Hne. by rewrite Ho2, Ho1.
  - intros l xs Hl. by apply Hf2, Hf1.
Qed.

Lemma constructed_sound (size : pyval) s :
  1 ≤ int_of size → sound (constructed size s).1 (constructed size s).2.
Proof.
  intros Hle. eexists. unfold view_of. simpl. rewrite lookup_insert_eq. simpl.
  rewrite lookup_insert_eq. split; [done|]. simpl. split; [done|lia].
Qed.

(** Whatever the store, the loop counts the items it went through, also
    when it raises on one of them. *)
Lemma for_each_counts_any self items s r res s' :
  reservoirs s !! self = Some r →
  for_each items (sample_item self) s = (res, s') →
  ∃ k, 0 ≤ k ≤ Z.of_nat (length items)
       ∧ reservoirs s' = <[self := advance r k]> (reservoirs s)
       ∧ (res = inr tt → k = Z.of_nat (length items)).
Proof.
  revert s r. induction items as [|item rest IH]; intros s r Hr.
  - intros [= <- <-]. exists 0. split_and!; [lia..| |done].
    rewrite insert_id; [done|]. rewrite Hr. f_equal. destruct r. unfold advance.
    simpl. by rewrite Z.add_0_r.
  - change (for_each (item :: rest) (sample_item self))
      with (sample_item self item;; for_each rest (sample_item self)).
    destruct (sample_item self item s) as [[e|[]] s1] eqn:E.
    + erewrite bind_exn by done. intros [= <- <-].
      exists 1. simpl length. split_and!; [lia..| |done].
      by rewrite (sample_item_counts _ _ _ _ _ _ Hr E).
    + erewrite bind_ok by done. intros Hrest.
      pose proof (sample_item_counts _ _ _ _ _ _ Hr E) as H1.
      destruct (IH s1 (bump r) ltac:(by rewrite H1, lookup_insert_eq) Hrest)
        as (k & Hk & Hres & Hall).
      exists (1 + k). simpl length. split_and!; [lia..| |].
      * rewrite Hres, H1, insert_insert_eq. f_equal. unfold advance, bump. simpl.
        f_equal. lia.
      * intros H. rewrite (Hall H). lia.
Qed.

Lemma sample_on_view_valid gen seed v :
  valid v → valid (sample_on_view gen seed v).2.
Proof.
  intros Hv. unfold sample_on_view. destruct (iter gen) as [e|items]; [done|].
  destruct (seeding_view seed v) as [e|v0] eqn:Hseed; [done|].
  apply loop_steps_valid. by eapply seeding_view_valid.
Qed.

Lemma accepted_seeding_view seed v :
  accepted seed → ∃ g, seeding_view seed v = inr (reseeded_view v g).
Proof.
  intros [->|(Hi & g & Hg)].
  - exists (v_rng v). simpl. by destruct v.
  - exists g. unfold seeding_view. rewrite Hi, Hg. by destruct seed.
Qed.

Lemma advance_0 r : advance r 0 = r.
Proof. destruct r. unfold advance. simpl. by rewrite Z.add_0_r. Qed.

(** Every item of the sample after a sequence of calls was there before or
    came from one of the streams. *)
Lemma sample_calls_items self calls s v :
  view_of self s = Some v → valid v →
  ∃ v', view_of self (sample_calls self calls s) = Some v'
        ∧ v_size v' = v_size v
        ∧ ∀ x, x ∈ v_items v' →
            x ∈ v_items v
            ∨ ∃ gen seed items, (gen, seed) ∈ calls ∧ iter gen = inr items ∧ x ∈ items.
Proof.
  revert s v. induction calls as [|[gen seed] rest IH]; intros s v Hview Hv.
  - exists v. split_and!; [done..|]. auto.
  - destruct (sample_on_view_ok self gen seed s v Hview Hv) as (s1 & Hrun & Hview1 & _).
    pose proof (sample_on_view_valid gen seed v Hv) as Hv1.
    destruct (sample_on_view_facts gen seed v) as (Hsize & Hsub & _).
    destruct (IH s1 _ Hview1 Hv1) as (v' & Hview' & Hsize' & Hsub').
    exists v'. simpl sample_calls. unfold exec. rewrite Hrun. simpl.
    split_and!; [done|congruence|].
    intros x Hx. destruct (Hsub' x Hx) as [Hx1|(g & sd & its & Hin & Hit & Hxi)].
    + destruct (Hsub x Hx1) as [?|(its & Hit & Hxi)]; [by left|].
      right. exists gen, seed, its. split_and!; [by left|done..].
    + right. exists g, sd, its. split_and!; [by right|done..].
Qed.

(** Two reservoirs with the same view go the same way through the same
    calls. *)
Lemma sample_calls_same_view a b calls s t v :
  view_of a s = Some v → view_of b t = Some v → valid v →
  view_of a (sample_calls a calls s) = view_of b (sample_calls b calls t).
Proof.
  revert s t v. induction calls as [|[gen seed] rest IH]; intros s t v Ha Hb Hv.
  - simpl. congruence.
  - destruct (sample_on_view_ok a gen seed s v Ha Hv) as (s1 & Hrun & Hview1 & _).
    destruct (sample_on_view_ok b gen seed t v Hb Hv) as (t1 & Hrun' & Hview1' & _).
    simpl sample_calls. unfold exec. rewrite Hrun, Hrun'. simpl.
    eapply IH; [done..|]. by apply sample_on_view_valid.
Qed.

Lemma sample_on_view_alike gen seed v v' :
  alike v v' → seed ≠ VNone →
  (sample_on_view gen seed v).1 = (sample_on_view gen seed v').1
  ∧ alike (sample_on_view gen seed v).2 (sample_on_view gen seed v').2
  ∧ (accepted seed → (∃ items, iter gen = inr items) →
     (sample_on_view gen seed v).2 = (sample_on_view gen seed v').2).
Proof.
  intros (Hsize & Hseen & Hitems) Hseed. unfold sample_on_view.
  destruct (iter gen) as [e|items].
  { split_and!; [done..|]. by intros _ [? ?]. }
  assert (Hcases : (∃ e, seeding_view seed v = inl e ∧ seeding_view seed v' = inl e
                         ∧ ¬ accepted seed)
                   ∨ (∃ v0, seeding_view seed v = inr v0 ∧ seeding_view seed v' = inr v0)).
  { unfold seeding_view, accepted, reseeded_view.
    rewrite Hsize, Hseen, Hitems.
    destruct (isinstance_int seed) eqn:Hi.
    - destruct (np_seed (int_of seed)) as [e|g] eqn:Hg.
      + left. exists e. destruct seed; try done;
          (split_and!; [done..|]); intros [?|(_ & g & Hg')]; congruence.
      + right. eexists. by destruct seed.
    - left. exists TypeError. destruct seed; try done;
        (split_and!; [done..|]); intros [?|(? & _)]; congruence. }
  destruct Hcases as [(e & -> & -> & Hnot)|(v0 & -> & ->)]; [|done].
  split_and!; [done..|]. intros. done.
Qed.

End ViewFacts.

(** ** Properties of the methods *)
Section Methods.
Context `{NR : NumpyRandom}.

(** X1. [Reservoir(size)] with an integer (or [True]) at least 1 returns a
    new instance with that size, count 0 and an empty list of its own: the
    instance was not in the store, the other instances are as before, and
    every list object of the store keeps its contents and is not the list of
    the new reservoir. *)
Theorem construction_result (size : pyval) (s : state) :
  isinstance_int size = true → 1 ≤ int_of size →
  ∃ self s1,
    __init__ size s = (inr self, s1)
    ∧ view_of self s1 = Some (mkView (int_of size) 0 [] (np_random s))
    ∧ reservoirs s !! self = None
    ∧ (∀ other, other ≠ self → reservoirs s1 !! other = reservoirs s !! other)
    ∧ (∀ l xs, lists s !! l = Some xs → foreign self s1 l xs).
Proof.
  intros Hi Hle. rewrite init_ok by done. eexists _, _. split; [done|].
  simpl. split_and!.
  - unfold view_of. simpl. rewrite lookup_insert_eq. simpl.
    by rewrite lookup_insert_eq.
  - apply not_elem_of_dom, is_fresh.
  - intros other Hne. by rewrite lookup_insert_ne.
  - intros l xs Hl. pose proof (fresh_list_ne s l xs Hl) as Hne. split; simpl.
    + by rewrite lookup_insert_ne.
    + rewrite lookup_insert_eq. by intros ? [= <-].
Qed.

(** X2. Reading [size] after assigning to it gives the integer assigned when
    the assignment was accepted (an integer at least 1), and the size of
    before when it raised. *)
Theorem size_round_trip (self : loc) (value : pyval) (s : state) (r : Reservoir) :
  reservoirs s !! self = Some r →
  (size self (exec (set_size self value) s)).1
  = inr (if isinstance_int value && (1 <=? int_of value)
         then int_of value else _size r).
Proof.
  intros Hr. rewrite (set_size_exec _ _ _ _ Hr). destruct (_ && _).
  - by rewrite (size_ok self _ (mkReservoir (int_of value) (_samples r) (_seen r)))
      by apply lookup_insert_eq.
  - by rewrite (size_ok self s r).
Qed.

(** X3. While the count stays within the size, [sample] keeps every item, in
    the order of the stream, after the items it had, and draws nothing: the
    generator is as the seed left it. *)
Theorem filling_keeps_stream (self : loc) (gen : pyobj) (seed : pyval)
    (s s0 : state) (v : view) (items : list pyval) :
  view_of self s = Some v → valid v →
  iter gen = inr items → seeding seed s = inr s0 →
  v_seen v + Z.of_nat (length items) ≤ v_size v →
  ∃ s', sample self gen seed s = (inr tt, s')
        ∧ view_of self s'
          = Some (mkView (v_size v) (v_seen v + Z.of_nat (length items))
                    (v_items v ++ items) (np_random s0)).
Proof.
  intros Hview Hv Hit Hseed Hle.
  destruct (sample_on_view_ok self gen seed s v Hview Hv) as (s' & Hrun & Hview' & _).
  pose proof (seeding_view_ok self seed s v Hview) as Hsv. rewrite Hseed in Hsv.
  destruct Hsv as (Hsv & _). unfold sample_on_view in Hrun, Hview'.
  rewrite Hit, Hsv, loop_steps_fill in Hrun, Hview' by done.
  by exists s'.
Qed.

(** X4. After construction and any sequence of calls of [sample], valid or
    raising, the size is the one given and every item of the sample was
    yielded by the stream of one of the calls. *)
Theorem sample_items_from_streams (size : pyval) (s s1 : state) (self : loc)
    (calls : list (pyobj * pyval)) :
  __init__ size s = (inr self, s1) →
  ∃ v, view_of self (sample_calls self calls s1) = Some v
       ∧ v_size v = int_of size
       ∧ ∀ x, x ∈ v_items v →
           ∃ gen seed items,
             (gen, seed) ∈ calls ∧ iter gen = inr items ∧ x ∈ items.
Proof.
  intros (Hi & Hle & [= -> ->])%init_inv.
  destruct (sample_calls_items (constructed size s).1 calls (constructed size s).2
              (mkView (int_of size) 0 [] (np_random s)))
    as (v & Hview & Hsize & Hsub).
  - unfold view_of. simpl. rewrite lookup_insert_eq. simpl.
    by rewrite lookup_insert_eq.
  - split; simpl; lia.
  - exists v. split_and!; [done..|].
    intros x Hx. destruct (Hsub x Hx) as [Hnil|?]; [|done].
    by apply elem_of_nil in Hnil.
Qed.

(** X5. A call of [sample], whether it returns or raises, changes of the
    instances only the count of its reservoir, and adds to it the number of
    items it went through: all of the stream when it returns, none when a
    check fails, and those up to the item that raised otherwise. *)
Theorem sample_counts_consumed (self : loc) (gen : pyobj) (seed : pyval)
    (s : state) (r : Reservoir) :
  reservoirs s !! self = Some r →
  ∃ k, 0 ≤ k ≤ stream_length gen
       ∧ reservoirs (exec (sample self gen seed) s)
         = <[self := advance r k]> (reservoirs s)
       ∧ ((sample self gen seed s).1 = inr tt → k = stream_length gen).
Proof.
  intros Hr. unfold exec, stream_length. rewrite sample_unfold.
  assert (Hid : reservoirs s = <[self := advance r 0]> (reservoirs s))
    by (by rewrite advance_0, insert_id).
  destruct (iter gen) as [e|items]; [exists 0; by split_and!|].
  destruct (seeding seed s) as [e|s0] eqn:Hseed.
  { exists 0. split_and!; [lia..|done|done]. }
  apply seeding_reservoirs in Hseed as [Hres _].
  destruct (for_each items (sample_item self) s0) as [res s'] eqn:E.
  destruct (for_each_counts_any self items s0 r res s') as (k & Hk & Hk' & Hall);
    [by rewrite Hres|done|].
  exists k. simpl. rewrite Hk', Hres. done.
Qed.

(** X6. Whatever a user calls on a reservoir after its construction
    ([sample], assignments to [size], [reset], accepted or raising), its size
    stays at least 1 and its sample never has more items than it has
    seen. *)
Theorem use_keeps_sound (size : pyval) (s s1 : state) (self : loc)
    (calls : list call) :
  __init__ size s = (inr self, s1) →
  sound self (use self calls s1).
Proof.
  intros (Hi & Hle & Heq)%init_inv.
  pose proof (constructed_sound size s Hle) as Hs. rewrite <-Heq in Hs.
  by apply use_sound.
Qed.

(** X7. Lowering the size of a reservoir to [c'], not above the number of
    items it holds, is safe: a later call of [sample] that passes its checks
    returns, the sample keeps its length (above the new size when it held
    more than [c'] items) and the items in the slots from index [c'] on are
    never replaced. *)
Theorem lowered_size_is_safe (self : loc) (s : state) (c n c' : Z)
    (gen : pyobj) (seed : pyval) :
  holds self s c n → 1 ≤ c' → c' ≤ c → c' ≤ n →
  passes (gen, seed) →
  ∃ v s' v',
    view_of self (exec (set_size self (VInt c')) s) = Some v
    ∧ v_size v = c'
    ∧ Z.of_nat (length (v_items v)) = Z.min n c
    ∧ sample self gen seed (exec (set_size self (VInt c')) s) = (inr tt, s')
    ∧ view_of self s' = Some v'
    ∧ v_size v' = c'
    ∧ length (v_items v') = length (v_items v)
    ∧ drop (Z.to_nat c') (v_items v') = drop (Z.to_nat c') (v_items v).
Proof.
  intros (l & xs & Hr & Hxs & Hlen) Hc' Hle Hn [[items Hit] Hacc]. simpl in *.
  rewrite (set_size_exec _ _ _ _ Hr). simpl.
  destruct (Z.leb_spec 1 c'); [|lia]. simpl.
  set (s1 := mkState _ _ _ _).
  set (v := mkView c' n xs (np_random s)).
  assert (Hview : view_of self s1 = Some v).
  { unfold view_of, s1. simpl. rewrite lookup_insert_eq. simpl. by rewrite Hxs. }
  assert (Hv : valid v) by (split; simpl; lia).
  destruct (sample_on_view_ok self gen seed s1 v Hview Hv) as (s' & Hrun & Hview' & _).
  destruct (accepted_seeding_view seed v Hacc) as [g Hg].
  unfold sample_on_view in Hrun, Hview'. rewrite Hit, Hg in Hrun, Hview'.
  destruct (loop_steps_full items (reseeded_view v g)) as (Hres & _ & Hlen' & Hdrop);
    [simpl; lia..|].
  destruct (loop_steps_facts items (reseeded_view v g)) as (Hsize & _).
  rewrite Hres in Hrun.
  exists v, s', (loop_steps items (reseeded_view v g)).2.
  split_and!; done.
Qed.

(** X8. Assigning a new size at least 1 while the reservoir has seen no more
    items than the old and the new size is harmless: from there on the
    reservoir holds [min(seen, new size)] items after every call of
    [sample], as if constructed with the new size. *)
Theorem resize_while_filling (self : loc) (s : state) (c n c' : Z)
    (calls : list (pyobj * pyval)) :
  holds self s c n → 0 ≤ n → n ≤ c → n ≤ c' → 1 ≤ c' →
  ∃ n', n ≤ n'
        ∧ holds self (sample_calls self calls (exec (set_size self (VInt c')) s)) c' n'.
Proof.
  intros (l & xs & Hr & Hxs & Hlen) Hn Hle Hle' Hc'.
  apply sample_calls_holds; [done..|].
  rewrite (set_size_exec _ _ _ _ Hr). simpl.
  destruct (Z.leb_spec 1 c'); [|lia]. simpl.
  exists l, xs. simpl. rewrite lookup_insert_eq. split_and!; [done..|lia].
Qed.

(** X9. [reset] gives the reservoir a new list and leaves the old one alone:
    a reference read from [samples] before the reset keeps its items through
    the reset and through every later call on the reservoir, and is never
    again the list the reservoir samples into. *)
Theorem reset_detaches_old_list (self : loc) (s : state) (r : Reservoir)
    (xs : list pyval) (calls : list call) :
  reservoirs s !! self = Some r → 1 ≤ _size r →
  lists s !! _samples r = Some xs →
  foreign self (use self calls (exec (reset self) s)) (_samples r) xs.
Proof.
  intros Hr Hc Hxs. apply use_sound.
  - unfold exec. rewrite (reset_ok _ _ _ Hr). simpl.
    eexists. unfold view_of. simpl. rewrite lookup_insert_eq. simpl.
    rewrite lookup_insert_eq. split; [done|]. simpl. split; [done|lia].
  - unfold exec. rewrite (reset_ok _ _ _ Hr). simpl.
    pose proof (fresh_list_ne s _ xs Hxs) as Hne. split; simpl.
    + by rewrite lookup_insert_ne.
    + rewrite lookup_insert_eq. by intros ? [= <-].
Qed.

(** X10. After [reset] a reservoir goes through calls of [sample] as a
    reservoir newly constructed with the same size does: after the same
    calls, from the same generator state, both have the same size, count,
    items and generator state. *)
Theorem reset_like_new (self : loc) (s : state) (r : Reservoir)
    (calls : list (pyobj * pyval)) :
  reservoirs s !! self = Some r → 1 ≤ _size r →
  view_of self (sample_calls self calls (exec (reset self) s))
  = view_of (constructed (VInt (_size r)) s).1
      (sample_calls (constructed (VInt (_size r)) s).1 calls
         (constructed (VInt (_size r)) s).2).
Proof.
  intros Hr Hc.
  apply (sample_calls_same_view _ _ _ _ _ (mkView (_size r) 0 [] (np_random s))).
  - unfold exec. rewrite (reset_ok _ _ _ Hr). unfold view_of. simpl.
    rewrite lookup_insert_eq. simpl. by rewrite lookup_insert_eq.
  - unfold view_of. simpl. rewrite lookup_insert_eq. simpl.
    by rewrite lookup_insert_eq.
  - split; simpl; lia.
Qed.

(** X11. Two reservoirs with lists of their own do not disturb each other's
    attributes: whatever is called on the one, the other keeps its size, its
    count, its list reference and the items of its list. *)
Theorem reservoirs_isolated (a b : loc) (s : state) (rb : Reservoir)
    (xb : list pyval) (calls : list call) :
  sound a s → a ≠ b →
  reservoirs s !! b = Some rb →
  foreign a s (_samples rb) xb →
  reservoirs (use a calls s) !! b = Some rb
  ∧ lists (use a calls s) !! _samples rb = Some xb.
Proof.
  intros Hs Hne Hb Hf. destruct (use_sound a calls s Hs) as (_ & Ho & Hfor).
  split.
  - by rewrite Ho.
  - by destruct (Hfor _ _ Hf).
Qed.

(** X12. The generator is shared: a seed given to a call of [sample] on any
    reservoir, be it with an empty stream, is the seed of the next call
    without seed on any other reservoir. *)
Theorem seed_is_shared (a b : loc) (gen : pyobj) (seed : pyval) (s : state)
    (items : list pyval) :
  iter gen = inr items →
  (sample a (Seq []) seed;; sample b gen VNone) s = sample b gen seed s.
Proof.
  intros Hit. rewrite (sample_unfold b gen seed). rewrite Hit.
  pose proof (sample_unfold a (Seq []) seed s) as Ha. simpl in Ha.
  destruct (seeding seed s) as [e|s0].
  - by erewrite bind_exn.
  - erewrite bind_ok by done. rewrite sample_unfold, Hit. done.
Qed.

(** X13. Replay: two reservoirs with the same size, count and items, in
    whatever stores and generator states, go the same way through a call of
    [sample] with the same stream and the same seed: the same result, and
    the same size, count and items afterwards; the same generator state as
    well when the call got to its loop. *)
Theorem replay_same_seed (a b : loc) (s t : state) (v v' : view)
    (gen : pyobj) (seed : pyval) :
  view_of a s = Some v → view_of b t = Some v' →
  valid v → alike v v' → seed ≠ VNone →
  ∃ w w',
    view_of a (exec (sample a gen seed) s) = Some w
    ∧ view_of b (exec (sample b gen seed) t) = Some w'
    ∧ (sample a gen seed s).1 = (sample b gen seed t).1
    ∧ alike w w'
    ∧ (accepted seed → (∃ items, iter gen = inr items) → w = w').
Proof.
  intros Ha Hb Hv Halike Hseed.
  assert (Hv' : valid v').
  { destruct Hv as [? ?], Halike as (Hs & Hn & _). split; congruence. }
  destruct (sample_on_view_ok a gen seed s v Ha Hv) as (s1 & Hrun & Hview & _).
  destruct (sample_on_view_ok b gen seed t v' Hb Hv') as (t1 & Hrun' & Hview' & _).
  destruct (sample_on_view_alike gen seed v v' Halike Hseed) as (Hres & Hal & Heq).
  unfold exec. rewrite Hrun, Hrun'. simpl. eexists _, _. by split_and!.
Qed.

End Methods.

(** ** Concrete runs of the methods *)

(** Two stores for the runs: a reservoir of size 2 just constructed, and a
    reservoir of size 3 that has seen five items. *)
Lemma construction_result_witness :
  isinstance_int (VInt 2) = true ∧ 1 ≤ int_of (VInt 2)
  ∧ ∃ self s1, __init__ (VInt 2) (LCG.boot 0) = (inr self, s1)
      ∧ view_of self s1 = Some (mkView 2 0 [] (0 : @rng LCG.numpy)).
Proof.
  assert (Hle : 1 ≤ int_of (VInt 2)) by (simpl; lia).
  split_and!; [reflexivity|exact Hle|].
  destruct (construction_result (NR := LCG.numpy) (VInt 2) (LCG.boot 0) eq_refl Hle)
    as (self & s1 & Hinit & Hview & _).
  exists self, s1. split; [exact Hinit|exact Hview].
Defined.

Lemma size_round_trip_witness :
  let s := (constructed (VInt 2) (LCG.boot 0)).2 in
  reservoirs s !! 1%positive = Some (mkReservoir 2 1%positive 0)
  ∧ (size 1%positive (exec (set_size 1%positive (VInt 5)) s)).1 = inr 5
  ∧ (size 1%positive (exec (set_size 1%positive (VInt 0)) s)).1 = inr 2.
Proof.
  intros s.
  assert (Hr : reservoirs s !! 1%positive = Some (mkReservoir 2 1%positive 0))
    by reflexivity.
  split_and!; [exact Hr| |].
  - exact (size_round_trip (NR := LCG.numpy) 1%positive (VInt 5) s _ Hr).
  - exact (size_round_trip (NR := LCG.numpy) 1%positive (VInt 0) s _ Hr).
Defined.

Lemma filling_keeps_stream_witness :
  let s := (constructed (VInt 2) (LCG.boot 0)).2 in
  let v := mkView 2 0 [] (0 : @rng LCG.numpy) in
  view_of 1%positive s = Some v ∧ valid v
  ∧ iter (Seq [VInt 7; VInt 8]) = inr [VInt 7; VInt 8]
  ∧ seeding VNone s = inr s
  ∧ v_seen v + Z.of_nat (length [VInt 7; VInt 8]) ≤ v_size v
  ∧ ∃ s', sample 1%positive (Seq [VInt 7; VInt 8]) VNone s = (inr tt, s')
          ∧ view_of 1%positive s' = Some (mkView 2 2 [VInt 7; VInt 8] (0 : @rng LCG.numpy)).
Proof.
  intros s v.
  assert (Hview : view_of 1%positive s = Some v) by reflexivity.
  assert (Hv : valid v) by (split; simpl; lia).
  assert (Hle : v_seen v + Z.of_nat (length [VInt 7; VInt 8]) ≤ v_size v)
    by (simpl; lia).
  split_and!; [exact Hview|exact Hv|reflexivity|reflexivity|exact Hle|].
  exact (filling_keeps_stream (NR := LCG.numpy) 1%positive (Seq [VInt 7; VInt 8]) VNone
           s s v [VInt 7; VInt 8] Hview Hv eq_refl eq_refl Hle).
Defined.

Lemma sample_items_from_streams_witness :
  let calls := [(Seq [VInt 7; VInt 8; VInt 9], VInt 0)] in
  __init__ (VInt 2) (LCG.boot 0)
  = (inr (constructed (VInt 2) (LCG.boot 0)).1, (constructed (VInt 2) (LCG.boot 0)).2)
  ∧ ∃ v, view_of 1%positive
           (sample_calls 1%positive calls (constructed (VInt 2) (LCG.boot 0)).2)
         = Some v
         ∧ ∀ x, x ∈ v_items v → x ∈ [VInt 7; VInt 8; VInt 9].
Proof.
  intros calls.
  assert (Hinit : __init__ (VInt 2) (LCG.boot 0)
                  = (inr (constructed (VInt 2) (LCG.boot 0)).1,
                     (constructed (VInt 2) (LCG.boot 0)).2))
    by (apply (init_ok (NR := LCG.numpy)); [reflexivity|simpl; lia]).
  split; [exact Hinit|].
  destruct (sample_items_from_streams (NR := LCG.numpy) _ _ _ _ calls Hinit)
    as (v & Hview & _ & Hsub).
  exists v. split; [exact Hview|].
  intros x Hx. destruct (Hsub x Hx) as (gen & seed & items & Hin & Hit & Hxi).
  apply list_elem_of_singleton in Hin. injection Hin as -> ->.
  injection Hit as <-. exact Hxi.
Defined.

Lemma sample_counts_consumed_witness :
  let s := (constructed (VInt 2) (LCG.boot 0)).2 in
  reservoirs s !! 1%positive = Some (mkReservoir 2 1%positive 0)
  ∧ ∃ k, 0 ≤ k ≤ 3
         ∧ reservoirs (exec (sample 1%positive (Seq [VInt 7; VInt 8; VInt 9]) VNone) s)
           = <[1%positive := mkReservoir 2 1%positive (0 + k)]> (reservoirs s).
Proof.
  intros s.
  assert (Hr : reservoirs s !! 1%positive = Some (mkReservoir 2 1%positive 0))
    by reflexivity.
  split; [exact Hr|].
  destruct (sample_counts_consumed (NR := LCG.numpy) 1%positive
              (Seq [VInt 7; VInt 8; VInt 9]) VNone s _ Hr) as (k & Hk & Hres & _).
  exists k. split; [exact Hk|exact Hres].
Defined.

Lemma use_keeps_sound_witness :
  let calls := [CallSample (Seq [VInt 7; VInt 8; VInt 9]) VNone;
                CallSetSize (VInt 5); CallSample (Seq [VInt 1]) VNone; CallReset] in
  __init__ (VInt 2) (LCG.boot 0)
  = (inr (constructed (VInt 2) (LCG.boot 0)).1, (constructed (VInt 2) (LCG.boot 0)).2)
  ∧ sound 1%positive (use 1%positive calls (constructed (VInt 2) (LCG.boot 0)).2).
Proof.
  intros calls.
  assert (Hinit : __init__ (VInt 2) (LCG.boot 0)
                  = (inr (constructed (VInt 2) (LCG.boot 0)).1,
                     (constructed (VInt 2) (LCG.boot 0)).2))
    by (apply (init_ok (NR := LCG.numpy)); [reflexivity|simpl; lia]).
  split; [exact Hinit|].
  exact (use_keeps_sound (NR := LCG.numpy) _ _ _ _ calls Hinit).
Defined.

Lemma lowered_size_is_safe_witness :
  let s := mkState LCG.numpy {[ 1%positive := mkReservoir 3 1%positive 5 ]}
             {[ 1%positive := [VInt 1; VInt 2; VInt 3] ]} 7 in
  holds 1%positive s 3 5 ∧ 1 ≤ 2 ∧ 2 ≤ 3 ∧ 2 ≤ 5
  ∧ passes (NR := LCG.numpy) (Seq [VInt 9; VInt 10], VNone)
  ∧ ∃ s' v', sample 1%positive (Seq [VInt 9; VInt 10]) VNone
               (exec (set_size 1%positive (VInt 2)) s) = (inr tt, s')
             ∧ view_of 1%positive s' = Some v'
             ∧ length (v_items v') = 3%nat
             ∧ drop 2 (v_items v') = [VInt 3].
Proof.
  intros s.
  assert (Hholds : holds 1%positive s 3 5).
  { exists 1%positive, [VInt 1; VInt 2; VInt 3].
    split_and!; reflexivity. }
  assert (Hpass : passes (NR := LCG.numpy) (Seq [VInt 9; VInt 10], VNone)).
  { split; simpl; [eexists; reflexivity|left; reflexivity]. }
  assert (H1 : 1 ≤ 2) by lia. assert (H2 : 2 ≤ 3) by lia. assert (H3 : 2 ≤ 5) by lia.
  split_and!; [exact Hholds|exact H1|exact H2|exact H3|exact Hpass|].
  destruct (lowered_size_is_safe (NR := LCG.numpy) 1%positive s 3 5 2 _ _
              Hholds H1 H2 H3 Hpass)
    as (v & s' & v' & Hview & _ & _ & Hrun & Hview' & _ & Hlen & Hdrop).
  assert (Hv : v = mkView 2 5 [VInt 1; VInt 2; VInt 3] (7 : @rng LCG.numpy)).
  { assert (Hsome : Some v = Some (mkView 2 5 [VInt 1; VInt 2; VInt 3]
                                       (7 : @rng LCG.numpy)))
      by (rewrite <- Hview; reflexivity).
    by injection Hsome. }
  rewrite Hv in Hlen, Hdrop.
  exists s', v'. split_and!; [exact Hrun|exact Hview'|exact Hlen|exact Hdrop].
Defined.

Lemma resize_while_filling_witness :
  let s := (constructed (VInt 2) (LCG.boot 0)).2 in
  holds 1%positive s 2 0 ∧ 0 ≤ 0 ∧ 0 ≤ 2 ∧ 0 ≤ 5 ∧ 1 ≤ 5
  ∧ ∃ n', holds 1%positive
            (sample_calls 1%positive [(Seq [VInt 7; VInt 8; VInt 9], VNone)]
               (exec (set_size 1%positive (VInt 5)) s)) 5 n'.
Proof.
  intros s.
  assert (Hholds : holds 1%positive s 2 0).
  { exists 1%positive, []. split_and!; reflexivity. }
  assert (H0 : 0 ≤ 0) by lia. assert (H1 : 0 ≤ 2) by lia.
  assert (H2 : 0 ≤ 5) by lia. assert (H3 : 1 ≤ 5) by lia.
  split_and!; [exact Hholds|exact H0|exact H1|exact H2|exact H3|].
  destruct (resize_while_filling (NR := LCG.numpy) 1%positive s 2 0 5
              [(Seq [VInt 7; VInt 8; VInt 9], VNone)] Hholds H0 H1 H2 H3)
    as (n' & _ & Hn').
  exists n'. exact Hn'.
Defined.

Lemma reset_detaches_old_list_witness :
  let s := mkState LCG.numpy {[ 1%positive := mkReservoir 3 1%positive 5 ]}
             {[ 1%positive := [VInt 1; VInt 2; VInt 3] ]} 7 in
  let r := mkReservoir 3 1%positive 5 in
  reservoirs s !! 1%positive = Some r ∧ 1 ≤ _size r
  ∧ lists s !! _samples r = Some [VInt 1; VInt 2; VInt 3]
  ∧ lists (use 1%positive [CallSample (Seq [VInt 9]) VNone] (exec (reset 1%positive) s))
      !! 1%positive = Some [VInt 1; VInt 2; VInt 3].
Proof.
  intros s r.
  assert (Hr : reservoirs s !! 1%positive = Some r) by reflexivity.
  assert (Hc : 1 ≤ _size r) by (simpl; lia).
  assert (Hxs : lists s !! _samples r = Some [VInt 1; VInt 2; VInt 3])
    by reflexivity.
  split_and!; [exact Hr|exact Hc|exact Hxs|].
  exact (proj1 (reset_detaches_old_list (NR := LCG.numpy) 1%positive s r _
                  [CallSample (Seq [VInt 9]) VNone] Hr Hc Hxs)).
Defined.

Lemma reset_like_new_witness :
  let s := mkState LCG.numpy {[ 1%positive := mkReservoir 3 1%positive 5 ]}
             {[ 1%positive := [VInt 1; VInt 2; VInt 3] ]} 7 in
  let r := mkReservoir 3 1%positive 5 in
  let calls := [(Seq [VInt 9; VInt 10; VInt 11; VInt 12], VNone)] in
  reservoirs s !! 1%positive = Some r ∧ 1 ≤ _size r
  ∧ view_of 1%positive (sample_calls 1%positive calls (exec (reset 1%positive) s))
    = view_of (constructed (VInt 3) s).1
        (sample_calls (constructed (VInt 3) s).1 calls (constructed (VInt 3) s).2).
Proof.
  intros s r calls.
  assert (Hr : reservoirs s !! 1%positive = Some r) by reflexivity.
  assert (Hc : 1 ≤ _size r) by (simpl; lia).
  split_and!; [exact Hr|exact Hc|].
  exact (reset_like_new (NR := LCG.numpy) 1%positive s r calls Hr Hc).
Defined.

Lemma reservoirs_isolated_witness :
  let s := (constructed (VInt 3) (constructed (VInt 2) (LCG.boot 0)).2).2 in
  let rb := mkReservoir 3 2%positive 0 in
  let calls := [CallSample (Seq [VInt 7; VInt 8; VInt 9]) (VInt 1); CallReset;
                CallSetSize (VInt 4); CallSample (Seq [VInt 1]) VNone] in
  sound 1%positive s ∧ 1%positive ≠ 2%positive
  ∧ reservoirs s !! 2%positive = Some rb
  ∧ foreign 1%positive s (_samples rb) []
  ∧ reservoirs (use 1%positive calls s) !! 2%positive = Some rb
  ∧ lists (use 1%positive calls s) !! 2%positive = Some [].
Proof.
  intros s rb calls.
  assert (Hs : sound 1%positive s).
  { exists (mkView 2 0 [] (0 : @rng LCG.numpy)). split_and!; [reflexivity|simpl; lia..]. }
  assert (Hne : 1%positive ≠ 2%positive) by discriminate.
  assert (Hb : reservoirs s !! 2%positive = Some rb) by reflexivity.
  assert (Hf : foreign 1%positive s (_samples rb) []).
  { split; [reflexivity|].
    intros r Hr.
    assert (Ha : reservoirs s !! 1%positive = Some (mkReservoir 2 1%positive 0))
      by reflexivity.
    pose proof (eq_trans (eq_sym Ha) Hr) as He. injection He as <-. discriminate. }
  split_and!; [exact Hs|exact Hne|exact Hb|exact Hf|..];
    apply (reservoirs_isolated (NR := LCG.numpy) 1%positive 2%positive s rb []
             calls Hs Hne Hb Hf).
Defined.

Lemma seed_is_shared_witness :
  iter (Seq [VInt 1; VInt 2]) = inr [VInt 1; VInt 2]
  ∧ (sample 1%positive (Seq []) (VInt 3);; sample 2%positive (Seq [VInt 1; VInt 2]) VNone)
      (LCG.boot 0)
    = sample 2%positive (Seq [VInt 1; VInt 2]) (VInt 3) (LCG.boot 0).
Proof.
  split; [reflexivity|].
  exact (seed_is_shared (NR := LCG.numpy) 1%positive 2%positive
           (Seq [VInt 1; VInt 2]) (VInt 3) (LCG.boot 0) _ eq_refl).
Defined.

Lemma replay_same_seed_witness :
  let s := (constructed (VInt 2) (LCG.boot 0)).2 in
  let t := (constructed (VInt 2) (LCG.boot 5)).2 in
  let v := mkView 2 0 [] (0 : @rng LCG.numpy) in
  let v' := mkView 2 0 [] (5 : @rng LCG.numpy) in
  let gen := Seq [VInt 7; VInt 8; VInt 9; VInt 10] in
  view_of 1%positive s = Some v ∧ view_of 1%positive t = Some v'
  ∧ valid v ∧ alike v v' ∧ VInt 3 ≠ VNone
  ∧ view_of 1%positive (exec (sample 1%positive gen (VInt 3)) s)
    = view_of 1%positive (exec (sample 1%positive gen (VInt 3)) t).
Proof.
  intros s t v v' gen.
  assert (Hs : view_of 1%positive s = Some v) by reflexivity.
  assert (Ht : view_of 1%positive t = Some v') by reflexivity.
  assert (Hv : valid v) by (split; simpl; lia).
  assert (Hal : alike v v') by (split_and!; reflexivity).
  assert (Hseed : VInt 3 ≠ VNone) by discriminate.
  split_and!; [exact Hs|exact Ht|exact Hv|exact Hal|exact Hseed|].
  destruct (replay_same_seed (NR := LCG.numpy) 1%positive 1%positive s t v v' gen
              (VInt 3) Hs Ht Hv Hal Hseed) as (w & w' & Hw & Hw' & _ & _ & Heq).
  rewrite Hw, Hw'. f_equal. apply Heq.
  - right. split; [reflexivity|]. exists 3. reflexivity.
  - eexists. reflexivity.
Defined.
